(** * obsidian-ultisnips: the snippet-file parser of [src/main.ts]

    A shallow embedding of [UltiSnips.parseSnippets] and of its inner
    functions [headTail] and [handleSnippetOrGlobal], of the part of
    [UltiSnips.loadSnippets] that builds the catalogue and the notice, and
    of the JavaScript string primitives they call, followed by the
    properties of the parser and of the load.

    JavaScript strings are sequences of UTF-16 code units; they are modelled
    as lists of code units ([N]).  Numbers that the parser manipulates are
    small counters and indexes, modelled in [Z].  A call that raises a
    [TypeError] in JavaScript is modelled by an explicit [Throw] outcome. *)

From Stdlib Require Import ZArith NArith List Ascii String Lia.
From Stdlib Require Import Numbers.DecimalString.
From stdpp Require Import gmap.

Import ListNotations.
Local Open Scope Z_scope.
Local Open Scope list_scope.

(** ** JavaScript strings *)

Module JS.

Abbreviation jsstring := (list N).

(** A literal of the source text (ASCII only), as code units. *)
Definition str (s : string) : jsstring :=
  List.map N_of_ascii (list_ascii_of_string s).

Definition quote : N := 34%N.      (* the double quote character *)
Definition space : N := 32%N.
Definition newline : N := 10%N.

Definition len (s : jsstring) : Z := Z.of_nat (List.length s).

(** [s.split(sep)] for a one-character separator: never empty, and the
    empty string splits into one empty piece. *)
Fixpoint split (sep : N) (s : jsstring) : list jsstring :=
  match s with
  | [] => [[]]
  | c :: s' =>
      if N.eqb c sep then [] :: split sep s'
      else match split sep s' with
           | [] => [[c]]
           | w :: ws => (c :: w) :: ws
           end
  end.

(** [s.split(sep, limit)]: all the pieces are computed, then the array is
    cut down to its first [limit] elements. *)
Definition split_limit (sep : N) (limit : nat) (s : jsstring) : list jsstring :=
  firstn limit (split sep s).

(** White space and line terminators, the characters [trim] strips
    (ECMAScript WhiteSpace and LineTerminator). *)
Definition isWhiteSpace (c : N) : bool :=
  ((9 <=? c) && (c <=? 13) || (c =? 32) || (c =? 160) || (c =? 5760)
   || ((8192 <=? c) && (c <=? 8202)) || (c =? 8232) || (c =? 8233)
   || (c =? 8239) || (c =? 8287) || (c =? 12288) || (c =? 65279))%N.

Fixpoint trimStart (s : jsstring) : jsstring :=
  match s with
  | [] => []
  | c :: s' => if isWhiteSpace c then trimStart s' else s
  end.

Definition trimEnd (s : jsstring) : jsstring := rev (trimStart (rev s)).

Definition trim (s : jsstring) : jsstring := trimEnd (trimStart s).

(** [s.includes(c)] for a one-character needle. *)
Definition includes (c : N) (s : jsstring) : bool :=
  existsb (N.eqb c) s.

(** [s.endsWith(c)] for a one-character suffix. *)
Definition endsWith (c : N) (s : jsstring) : bool :=
  match rev s with
  | x :: _ => N.eqb x c
  | [] => false
  end.

(** [s.substring(a, b)]: both indexes are clamped to [0, length], and
    swapped when the first exceeds the second. *)
Definition substring (s : jsstring) (a b : Z) : jsstring :=
  let a' := Z.max 0 (Z.min a (len s)) in
  let b' := Z.max 0 (Z.min b (len s)) in
  let lo := Z.min a' b' in
  let hi := Z.max a' b' in
  firstn (Z.to_nat (hi - lo)) (skipn (Z.to_nat lo) s).

(** [s.substring(a)]. *)
Definition substring_from (s : jsstring) (a : Z) : jsstring :=
  substring s a (len s).

(** [s.lastIndexOf(c)] for a one-character needle: the index of the last
    occurrence, or -1. *)
Fixpoint lastIndexOf_from (c : N) (s : jsstring) (i acc : Z) : Z :=
  match s with
  | [] => acc
  | x :: s' => lastIndexOf_from c s' (i + 1) (if N.eqb x c then i else acc)
  end.

Definition lastIndexOf (c : N) (s : jsstring) : Z :=
  lastIndexOf_from c s 0 (-1).

(** [s.replace(c, e)] with a one-character string pattern [c] and the empty
    string for [e]: the first occurrence only is removed. *)
Fixpoint replace_first_empty (c : N) (s : jsstring) : jsstring :=
  match s with
  | [] => []
  | x :: s' => if N.eqb x c then s' else x :: replace_first_empty c s'
  end.

(** [a.at(-k)] on an array, for k >= 1: [undefined] is [None]. *)
Definition at_back {A} (l : list A) (k : nat) : option A :=
  nth_error (rev l) (Nat.pred k).

(** [s.at(0)] and [s.at(-1)] on a string. *)
Definition at_first (s : jsstring) : option N := nth_error s 0.
Definition at_last (s : jsstring) : option N := nth_error (rev s) 0.

(** [x != y] on two results of [at]. *)
Definition opt_neq (x y : option N) : bool :=
  match x, y with
  | Some a, Some b => negb (N.eqb a b)
  | None, None => false
  | _, _ => true
  end.

(** An integer printed by a template literal: its decimal digits, after a
    minus sign when it is negative.  JavaScript prints integers this way up
    to 10^21 in absolute value. *)
Definition number_to_string (n : Z) : jsstring :=
  match n with
  | Zneg p => str "-" ++ str (NilZero.string_of_uint (N.to_uint (Npos p)))
  | _ => str (NilZero.string_of_uint (N.to_uint (Z.to_N n)))
  end.

(** [Number.MAX_SAFE_INTEGER]: up to it, integers are represented and
    incremented exactly, and printed in plain decimal. *)
Definition maxSafeInteger : Z := 9007199254740991.

End JS.

Import JS.

(** ** Data model *)

(** The object passed around as [pythonGlobals]: [null], or an object whose
    own properties are arrays of strings. *)
Abbreviation Globals := (option (gmap (list N) (list (list N)))).

(** [class SnippetDefinition] (the constructor stores its nine arguments;
    [matched] and [lastRegex] are declared and never assigned).  [globals]
    holds the accumulator object handed to the constructor; [context] is a
    string or [null]. *)
Record SnippetDefinition := mkSnippetDefinition {
  priority : Z;
  trigger : jsstring;
  value : jsstring;
  description : jsstring;
  options : jsstring;
  globals : Globals;
  location : jsstring;
  context : option jsstring;
  actions : gmap (list N) (list N)
}.

(** What [handleSnippetOrGlobal] returns: the tuple [["error", [msg, line]]]
    or the tuple [["snippet", [definition]]]. *)
Inductive HandlerResult :=
| ErrorResult (message : jsstring) (line : Z)
| SnippetResult (definition : SnippetDefinition).

Inductive Exception := TypeError.

(** The outcome of a call that may raise. *)
Inductive Outcome (A : Type) :=
| Normal (a : A)
| Throw (e : Exception).
Arguments Normal {A} a.
Arguments Throw {A} e.

(** ** The per-directive handler *)

(** The fields recovered from a header line by lines 158-199 of
    [handleSnippetOrGlobal], before the delimiter check on the trigger. *)
Record Header := mkHeader {
  h_head : jsstring;
  h_options : jsstring;
  h_context : option jsstring;
  h_description : jsstring;
  h_trigger : jsstring
}.

(** [!context] on a string or [null]: [null] and the empty string are falsy. *)
Definition falsy (context : option jsstring) : bool :=
  match context with
  | None => true
  | Some [] => true
  | Some _ => false
  end.

(** [headTail(line)], that is [line.split(" ", 2)]. *)
Definition headTail (line : jsstring) : list jsstring :=
  split_limit space 2 line.

(** [head] in [let [head, tail] = headTail(line)]: the first element, which
    a split always has. *)
Definition firstToken (line : jsstring) : jsstring :=
  nth 0 (headTail line) [].

(** Lines 163-199: options, context, description and trigger candidate,
    from the [tail] of the header line. *)
Definition headerOfTail (head tail : jsstring) (context : option jsstring)
  : Header :=
  let words := split space tail in
  let '(options, tail) :=
    if 2 <? Z.of_nat (List.length words) then
      if negb (match at_back words 1 with
               | Some w => includes quote w
               | None => false
               end)
         && match at_back words 2 with
            | Some w => endsWith quote w
            | None => false
            end
      then
        let options := match at_back words 1 with Some w => w | None => [] end in
        (options,
         trimEnd (substring tail 0 (len tail - len options - 1)))
      else ([], tail)
    else ([], tail) in
  let '(context, tail) :=
    if includes 101%N options && falsy context then
      let left := lastIndexOf quote (substring tail 0 (len tail - 1)) in
      if negb ((left =? -1) || (left =? 0)) then
        (Some (replace_first_empty quote (substring_from tail left)),
         substring tail 0 left)
      else (context, tail)
    else (context, tail) in
  let tail := trim tail in
  let '(description, tail) :=
    if (1 <? len tail) && endsWith quote tail then
      let left := lastIndexOf quote (substring tail 0 (len tail - 1)) in
      if negb ((left =? -1) || (left =? 0)) then
        (substring_from tail left, substring tail 0 left)
      else ([], tail)
    else ([], tail) in
  let trigger := trim tail in
  mkHeader head options context description trigger.

(** Lines 158-199.  The destructuring [[head, tail] = line.split(" ", 2)]
    leaves [tail] undefined when the line has no space, and [tail.split]
    then raises. *)
Definition headerFields (line : jsstring) (context : option jsstring)
  : Outcome Header :=
  let parts := split_limit space 2 line in
  let head := nth 0 parts [] in
  match nth_error parts 1 with
  | None => Throw TypeError
  | Some tail => Normal (headerOfTail head tail context)
  end.

(** Lines 216-225: the scan for the end marker.  It walks [lines] from
    their first element, appends each line to [content] and counts it; at
    the marker it drops the last character of [content] and stops. *)
Fixpoint collectBody (endm : jsstring) (lines : list jsstring)
    (content : jsstring) (currentLineNumber : Z) : bool * jsstring * Z :=
  match lines with
  | [] => (false, content, currentLineNumber)
  | line :: lines' =>
      if decide (trimEnd line = endm) then
        (true, substring content 0 (len content - 1), currentLineNumber)
      else collectBody endm lines' (content ++ line) (currentLineNumber + 1)
  end.

Definition invalidMultiwordTrigger (trigger : jsstring) : jsstring :=
  str "Invalid multiword trigger: '" ++ trigger ++ str "'".

Definition missingEnd (endm trigger : jsstring) : jsstring :=
  str "Missing '" ++ endm ++ str "' for '" ++ trigger ++ str "'".

Definition invalidSnippetType (head : jsstring) : jsstring :=
  str "Invalid snippet type: '" ++ head ++ str "'".

(** [handleSnippetOrGlobal].  The result comes with the accumulator object
    as the call leaves it, since the [global] case pushes onto one of its
    arrays.  Indexing [null], or calling [push] on a property the object
    does not own as an array, raises. *)
Definition handleSnippetOrGlobal (filename line : jsstring)
    (currentLineNumber : Z) (lines : list jsstring) (pythonGlobals : Globals)
    (currentPriority : Z) (preExpand : gmap (list N) (list N))
    (context : option jsstring) : Outcome (HandlerResult * Globals) :=
  let startingLineNumber := currentLineNumber in
  match headerFields line context with
  | Throw e => Throw e
  | Normal (mkHeader head options context description trigger) =>
      let delimited := (1 <? len trigger) || includes 114%N options in
      if delimited && opt_neq (at_first trigger) (at_last trigger) then
        Normal (ErrorResult (invalidMultiwordTrigger trigger) currentLineNumber,
                pythonGlobals)
      else
        let trigger :=
          if delimited then substring trigger 1 (len trigger - 1) else trigger in
        let endm := str "end" ++ head in
        let '(foundEnd, content, currentLineNumber) :=
          collectBody endm lines [] currentLineNumber in
        if negb foundEnd then
          Normal (ErrorResult (missingEnd endm trigger) currentLineNumber,
                  pythonGlobals)
        else if decide (head = str "global") then
          match pythonGlobals with
          | None => Throw TypeError
          | Some g =>
              match g !! trigger with
              | None => Throw TypeError
              | Some fragments =>
                  Normal (ErrorResult (invalidSnippetType head) currentLineNumber,
                          Some (<[trigger := fragments ++ [content]]> g))
              end
          end
        else if decide (head = str "snippet") then
          Normal (SnippetResult
                    (mkSnippetDefinition currentPriority trigger content
                       description options pythonGlobals
                       (filename ++ str ":" ++ number_to_string startingLineNumber)
                       context preExpand),
                  pythonGlobals)
        else
          Normal (ErrorResult (invalidSnippetType head) currentLineNumber,
                  pythonGlobals)
  end.

(** ** The file scan *)

(** The variables of [parseSnippets] that live across the loop. *)
Record ScanState := mkScanState {
  s_pythonGlobals : Globals;
  s_currentLineNumber : Z;
  s_currentPriority : Z;
  s_actions : gmap (list N) (list N);
  s_context : option jsstring
}.

Definition initialState : ScanState :=
  mkScanState None 0 0 ∅ None.

(** How a run of the generator ends: it falls off the end of its body, it
    executes [return ["snippet", [snippet]]] (the handler's result,
    wrapped), or it raises. *)
Inductive Completion :=
| Done
| Returned (snippet : HandlerResult)
| Raised (e : Exception).

(** A complete run of the generator: the values it yielded, in order, and
    the way it ended. *)
Record Generator := mkGenerator {
  yielded : list SnippetDefinition;
  completion : Completion
}.

Definition isDirective (head : jsstring) : bool :=
  bool_decide (head = str "snippet") || bool_decide (head = str "global").

(** Lines 264-288, the loop over [raw.split("\n")]; [all] is the second
    [raw.split("\n")], handed whole to the handler.  The handler never
    returns [null], so the test [snippet !== null] always passes and the
    generator ends there: the resets of [actions] and [context] and the
    state of the accumulator after the call are never read again. *)
Fixpoint scan (filename : jsstring) (all : list jsstring) (st : ScanState)
    (rest : list jsstring) : Generator :=
  match rest with
  | [] => mkGenerator [] Done
  | line :: rest' =>
      if decide (trim line = []) then scan filename all st rest'
      else
        let head := firstToken line in
        if isDirective head then
          match handleSnippetOrGlobal filename line (s_currentLineNumber st)
                  all (s_pythonGlobals st) (s_currentPriority st)
                  (s_actions st) (s_context st) with
          | Throw e => mkGenerator [] (Raised e)
          | Normal (snippet, _) => mkGenerator [] (Returned snippet)
          end
        else
          scan filename all
            (mkScanState (s_pythonGlobals st) (s_currentLineNumber st + 1)
               (s_currentPriority st) (s_actions st) (s_context st))
            rest'
  end.

(** [parseSnippets(filename, raw)], run to completion. *)
Definition parseSnippets (filename raw : jsstring) : Generator :=
  scan filename (split newline raw) initialState (split newline raw).

(** The spread [[...this.parseSnippets(path, text)]] of [loadSnippets]: the
    array of the yielded values; the value of a [return] is not part of it,
    and an exception of the generator propagates. *)
Definition spread (g : Generator) : Outcome (list SnippetDefinition) :=
  match completion g with
  | Raised e => Throw e
  | _ => Normal (yielded g)
  end.

(** The entry that [loadSnippets] stores for one file. *)
Definition loadFile (path raw : jsstring) : Outcome (list SnippetDefinition) :=
  spread (parseSnippets path raw).

(** ** Loading a directory *)

(** [f.endsWith(suffix)] for a string suffix. *)
Definition endsWithString (suffix s : jsstring) : bool :=
  bool_decide (skipn (List.length s - List.length suffix) s = suffix).

(** The characters that [.] of a regular expression does not match. *)
Definition isLineTerminator (c : N) : bool :=
  ((c =? 10) || (c =? 13) || (c =? 8232) || (c =? 8233))%N.

Definition dot : N := 46%N.

(** The first group of [/^(.+)\..+$/] on a string free of line terminators:
    the longest non-empty prefix that is followed by a dot and by at least
    one more character ([.+] is greedy), if there is one. *)
Fixpoint stem (f : jsstring) : option jsstring :=
  match f with
  | [] => None
  | c :: f' =>
      match stem f' with
      | Some p => Some (c :: p)
      | None =>
          match f' with
          | d :: _ :: _ => if N.eqb d dot then Some [c] else None
          | _ => None
          end
      end
  end.

(** [f.replace(/^(.+)\..+$/, "$1")], the key of a file in the catalogue.
    The pattern is anchored at both ends and each of its atoms consumes a
    character other than a line terminator: it matches the whole string or
    nothing, and a string it does not match is returned as it is. *)
Definition groupName (f : jsstring) : jsstring :=
  if existsb isLineTerminator f then f
  else match stem f with
       | Some p => p
       | None => f
       end.

(** [Object.fromEntries(entries)]: the entries are written in order, a later
    entry replacing an earlier one with the same key. *)
Definition fromEntries {A} (entries : list (jsstring * A)) : gmap (list N) A :=
  fold_left (fun m kv => <[fst kv := snd kv]> m) entries ∅.

Section Loading.

(** The directory, [path.join] and [readFileSync] with the encoding option:
    the collaborators of [loadSnippets]. *)
Variable snippetDir : jsstring.
Variable pathJoin : jsstring -> jsstring -> jsstring.
Variable readFileSync : jsstring -> jsstring.

(** [snippetFiles.map(f => [key, [...this.parseSnippets(path, text)]])]
    (lines 110-120): the files are parsed in order, and the first parse
    that raises ends the map. *)
Fixpoint loadEntries (snippetFiles : list jsstring)
  : Outcome (list (jsstring * list SnippetDefinition)) :=
  match snippetFiles with
  | [] => Normal []
  | f :: fs =>
      match loadFile (pathJoin snippetDir f)
              (readFileSync (pathJoin snippetDir f)) with
      | Throw e => Throw e
      | Normal records =>
          match loadEntries fs with
          | Throw e => Throw e
          | Normal entries => Normal ((groupName f, records) :: entries)
          end
      end
  end.

(** The body of the [readdir] callback when there is no error (lines
    108-121): the value assigned to [this.snippets]. *)
Definition loadCatalogue (files : list jsstring)
  : Outcome (gmap (list N) (list SnippetDefinition)) :=
  let snippetFiles := List.filter (endsWithString (str ".snippets")) files in
  match loadEntries snippetFiles with
  | Throw e => Throw e
  | Normal entries => Normal (fromEntries entries)
  end.

End Loading.

(** [this.snippets]: [undefined] until the callback of a load has assigned
    a catalogue to it. *)
Abbreviation Held := (option (gmap (list N) (list SnippetDefinition))).

(** Lines 123-125, the count of loaded snippets.  [Object.values] raises on
    [undefined]. *)
Definition loadedSnippetsCount (held : Held) : Outcome Z :=
  match held with
  | None => Throw TypeError
  | Some snippets =>
      Normal (fold_left Z.add
                (List.map (fun kv => Z.of_nat (List.length (snd kv)))
                   (map_to_list snippets)) 0)
  end.

(** Line 126, the count of groups.  [Object.keys] raises on [undefined]. *)
Definition loadedSnippetsFiles (held : Held) : Outcome Z :=
  match held with
  | None => Throw TypeError
  | Some snippets => Normal (Z.of_nat (size snippets))
  end.

(** Lines 123-133, the text of the notice, from [this.snippets] as these
    lines find it. *)
Definition noticeText (held : Held) : Outcome jsstring :=
  match loadedSnippetsCount held with
  | Throw e => Throw e
  | Normal count =>
      match loadedSnippetsFiles held with
      | Throw e => Throw e
      | Normal files =>
          Normal (str "UltiSnips: Loaded " ++ number_to_string count
                    ++ str " snippet"
                    ++ (if count =? 1 then [] else str "s")
                    ++ str " from " ++ number_to_string files
                    ++ str " file"
                    ++ (if files =? 1 then [] else str "s"))
      end
  end.

(** What one call of [loadSnippets] does: the notice it shows, or the
    exception raised in its place, and [this.snippets] once the callback of
    [readdir] has run. *)
Record LoadRun := mkLoadRun {
  notice : Outcome jsstring;
  snippetsAfter : Held
}.

Section LoadCall.

Variable snippetDir : jsstring.
Variable pathJoin : jsstring -> jsstring -> jsstring.
Variable readFileSync : jsstring -> jsstring.

(** One call of [loadSnippets], lines 103-134, when [readdir] reports no
    error.  [readdir] is given a callback and returns [undefined]; the
    [await] on that value resumes lines 123-133 before the callback runs.
    The notice is therefore computed from [this.snippets] as the call found
    it, and the callback assigns the new catalogue afterwards, unless a
    parse raises in it, which leaves [this.snippets] as it was. *)
Definition loadSnippets (held : Held) (files : list jsstring) : LoadRun :=
  mkLoadRun (noticeText held)
    (match loadCatalogue snippetDir pathJoin readFileSync files with
     | Normal snippets => Some snippets
     | Throw _ => held
     end).

End LoadCall.

(** ** Building source texts *)

(** [quoted s] is [s] between double quotes. *)
Definition quoted (s : jsstring) : jsstring := quote :: s ++ [quote].

(** The text of a file, from its lines. *)
Fixpoint unlines (lines : list jsstring) : jsstring :=
  match lines with
  | [] => []
  | [l] => l
  | l :: ls => l ++ newline :: unlines ls
  end.

(** ** Lines and scan states, for the statements *)

(** A line the loop passes over: blank, or with a first token that opens
    no block. *)
Definition plainLine (l : jsstring) : Prop :=
  trim l = [] \/ (firstToken l <> str "snippet" /\ firstToken l <> str "global").

(** The scan state with its line counter replaced. *)
Definition withLineNumber (st : ScanState) (n : Z) : ScanState :=
  mkScanState (s_pythonGlobals st) n (s_currentPriority st)
    (s_actions st) (s_context st).

(** The lines that move the line counter of the scan: those that are not
    blank. *)
Definition countedLines (lines : list jsstring) : Z :=
  Z.of_nat (List.length (List.filter (fun l => negb (bool_decide (trim l = []))) lines)).

(** [s] without its last character: [s.substring(0, s.length - 1)]. *)
Definition chomp (s : jsstring) : jsstring := substring s 0 (len s - 1).

(** ** Sample files *)

(** A single well-formed block with a description. *)
Definition singleBlock : jsstring :=
  unlines [str "snippet " ++ quoted (str "trig") ++ str " " ++ quoted (str "desc");
           str "BODY";
           str "endsnippet"].

(** A header with an unquoted multiword trigger. *)
Definition unquotedHeader : jsstring := str "snippet abc".

(** A global block, then a snippet block. *)
Definition globalThenSnippet : jsstring :=
  unlines [str "global g"; str "import re"; str "endglobal";
           str "snippet a"; str "text"; str "endsnippet"].

(** A priority line, then two snippet blocks. *)
Definition priorityThenTwo : jsstring :=
  unlines [str "priority 5";
           str "snippet a"; str "one"; str "endsnippet";
           str "snippet b"; str "two"; str "endsnippet"].

(** A block that is never closed. *)
Definition unterminated : jsstring :=
  unlines [str "snippet " ++ quoted (str "t"); str "BODY"].

(** A file without any [snippet] or [global] line. *)
Definition noDirective : jsstring :=
  unlines [str "priority 5"; []; str "# a comment"; str "  "; str "extends c"].

(** Comment and blank lines, then a global block. *)
Definition commentThenGlobal : jsstring :=
  unlines [str "# helpers"; []; str "global g"; str "import re";
           str "endglobal"].

(** A block with a quoted trigger of two words, never closed. *)
Definition twoWordTrigger : jsstring :=
  unlines [str "snippet " ++ quoted (str "two words"); str "BODY"].

(** A block with an unquoted trigger of two words. *)
Definition unquotedTwoWords : jsstring :=
  unlines [str "snippet x yz"; str "body"; str "endsnippet"].

(** Two blank lines, then a header with an unquoted multiword trigger. *)
Definition blankThenUnquoted : jsstring :=
  unlines [[]; []; str "snippet abc"].

Definition pythonFile : jsstring := str "python.snippets".

(** ** Proof automation *)

(** A character that a literal does not contain. *)
Ltac absent_in_literal :=
  let H := fresh in
  intros H; cbv in H;
  repeat (destruct H as [H|H]; [discriminate H|]); exact H.

(** A concrete line is blank, or its first token opens no block. *)
Ltac plain_line :=
  first [ left; reflexivity
        | right; split;
          (let E := fresh in intros E; vm_compute in E; discriminate E) ].

(** * Properties *)

(** ** The string primitives *)

Section StringFacts.

Lemma split_nonempty sep s : split sep s <> [].
Proof.
  destruct s as [|c s]; simpl; [discriminate|].
  destruct (N.eqb c sep); [discriminate|].
  destruct (split sep s); discriminate.
Qed.

(** A string without the separator is a single piece. *)
Lemma split_no_sep sep s : ~ In sep s -> split sep s = [s].
Proof.
  induction s as [|c s IH]; simpl; intros Hn; [reflexivity|].
  destruct (N.eqb_spec c sep) as [->|Hne]; [tauto|].
  rewrite IH by tauto. reflexivity.
Qed.

(** The first piece ends at the first separator. *)
Lemma split_app_sep sep a b :
  ~ In sep a -> split sep (a ++ sep :: b) = a :: split sep b.
Proof.
  induction a as [|c a IH]; simpl; intros Hn.
  - rewrite N.eqb_refl. reflexivity.
  - destruct (N.eqb_spec c sep) as [->|Hne]; [tauto|].
    rewrite IH by tauto. reflexivity.
Qed.

(** No piece of a split contains the separator. *)
Lemma split_pieces_no_sep sep s w : In w (split sep s) -> ~ In sep w.
Proof.
  revert w. induction s as [|c s IH]; simpl; intros w Hw.
  - destruct Hw as [<-|[]]. simpl. tauto.
  - destruct (N.eqb_spec c sep) as [->|Hne].
    + destruct Hw as [<-|Hw]; [simpl; tauto|]. now apply IH.
    + destruct (split sep s) as [|w0 ws] eqn:E.
      * destruct Hw as [<-|[]]. simpl. intros [?|[]]. congruence.
      * destruct Hw as [<-|Hw].
        -- simpl. intros [?|Hin]; [congruence|].
           apply (IH w0); [now left|exact Hin].
        -- apply IH. now right.
Qed.

Lemma trimStart_keep c s : isWhiteSpace c = false -> trimStart (c :: s) = c :: s.
Proof. intros H. simpl. now rewrite H. Qed.

Lemma trimEnd_keep c s : isWhiteSpace c = false -> trimEnd (s ++ [c]) = s ++ [c].
Proof.
  intros H. unfold trimEnd. rewrite rev_app_distr. simpl.
  rewrite H. simpl. now rewrite rev_involutive.
Qed.

(** A string that starts and ends with characters that are not white
    space is its own trim. *)
Lemma trim_keep c d s :
  isWhiteSpace c = false -> isWhiteSpace d = false ->
  trim (c :: s ++ [d]) = c :: s ++ [d].
Proof.
  intros Hc Hd. unfold trim. rewrite trimStart_keep by exact Hc.
  change (c :: s ++ [d]) with ((c :: s) ++ [d]).
  now apply trimEnd_keep.
Qed.

Lemma trim_single c : isWhiteSpace c = false -> trim [c] = [c].
Proof. intros H. unfold trim, trimEnd. simpl. rewrite H. simpl. now rewrite H. Qed.

(** A line whose first character is not white space is not blank. *)
Lemma trim_not_blank c s : isWhiteSpace c = false -> trim (c :: s) <> [].
Proof.
  intros H. unfold trim. rewrite trimStart_keep by exact H.
  unfold trimEnd. intros E.
  apply (f_equal (@rev N)) in E. rewrite rev_involutive in E. simpl in E.
  assert (Hl : forall l, trimStart (l ++ [c]) <> []).
  { induction l as [|x l IH]; simpl.
    - now rewrite H.
    - destruct (isWhiteSpace x); [exact IH|discriminate]. }
  exact (Hl (rev s) E).
Qed.

Lemma lastIndexOf_from_absent c s i acc :
  ~ In c s -> lastIndexOf_from c s i acc = acc.
Proof.
  revert i acc. induction s as [|x s IH]; simpl; intros i acc Hn; [reflexivity|].
  destruct (N.eqb_spec x c) as [->|Hne]; [tauto|].
  apply IH. tauto.
Qed.

Lemma len_app (a b : jsstring) : len (a ++ b) = len a + len b.
Proof. unfold len. rewrite length_app. lia. Qed.

Lemma len_cons c (a : jsstring) : len (c :: a) = 1 + len a.
Proof. unfold len. simpl List.length. lia. Qed.

Lemma len_nonneg (a : jsstring) : 0 <= len a.
Proof. unfold len. lia. Qed.

(** [s.substring(0, s.length - 1)] drops the last character. *)
Lemma substring_drop_last (s : jsstring) c :
  substring (s ++ [c]) 0 (len (s ++ [c]) - 1) = s.
Proof.
  unfold substring. rewrite len_app. change (len [c]) with 1.
  pose proof (len_nonneg s).
  replace (Z.max 0 (Z.min 0 (len s + 1))) with 0 by lia.
  replace (Z.max 0 (Z.min (len s + 1 - 1) (len s + 1))) with (len s) by lia.
  replace (Z.min 0 (len s)) with 0 by lia.
  replace (Z.max 0 (len s)) with (len s) by lia.
  change (Z.to_nat 0) with 0%nat. rewrite skipn_O.
  unfold len. rewrite Z.sub_0_r, Nat2Z.id.
  rewrite firstn_app, Nat.sub_diag, firstn_all. simpl. apply app_nil_r.
Qed.

(** [s.substring(1, s.length - 1)] strips one delimiter at each end. *)
Lemma substring_strip (s : jsstring) c d :
  substring (c :: s ++ [d]) 1 (len (c :: s ++ [d]) - 1) = s.
Proof.
  unfold substring. rewrite len_cons, len_app. change (len [d]) with 1.
  pose proof (len_nonneg s).
  replace (Z.max 0 (Z.min 1 (1 + (len s + 1)))) with 1 by lia.
  replace (Z.max 0 (Z.min (1 + (len s + 1) - 1) (1 + (len s + 1))))
    with (len s + 1) by lia.
  replace (Z.min 1 (len s + 1)) with 1 by lia.
  replace (Z.max 1 (len s + 1)) with (len s + 1) by lia.
  replace (len s + 1 - 1) with (len s) by lia.
  change (Z.to_nat 1) with 1%nat.
  change (skipn 1 (c :: s ++ [d])) with (s ++ [d]).
  unfold len. rewrite Nat2Z.id.
  rewrite firstn_app, Nat.sub_diag, firstn_all. simpl. apply app_nil_r.
Qed.

End StringFacts.

(** ** The header of a directive *)

Section HeaderFacts.

Lemma at_last_snoc s c : at_last (s ++ [c]) = Some c.
Proof. unfold at_last. now rewrite rev_app_distr. Qed.

Lemma endsWith_snoc s c d : endsWith d (s ++ [c]) = N.eqb c d.
Proof. unfold endsWith. now rewrite rev_app_distr. Qed.

Lemma len_trimStart s : len (trimStart s) <= len s.
Proof.
  induction s as [|c s IH]; simpl; [lia|].
  destruct (isWhiteSpace c); rewrite ?len_cons; lia.
Qed.

Lemma len_trimEnd s : len (trimEnd s) <= len s.
Proof.
  unfold trimEnd, len. rewrite length_rev.
  pose proof (len_trimStart (rev s)) as H. unfold len in H.
  rewrite length_rev in H. exact H.
Qed.

Lemma len_trim s : len (trim s) <= len s.
Proof.
  unfold trim. pose proof (len_trimEnd (trimStart s)).
  pose proof (len_trimStart s). lia.
Qed.

(** The keyword and the first word after it: what [line.split(" ", 2)]
    keeps of a line with a space. *)
Lemma headTail_after_space head w p ps :
  ~ In space head -> split space w = p :: ps ->
  headTail (head ++ space :: w) = [head; p].
Proof.
  intros Hh Hw. unfold headTail, split_limit.
  rewrite split_app_sep by exact Hh. rewrite Hw. reflexivity.
Qed.

(** A line without a space has no tail. *)
Lemma headTail_no_space line : ~ In space line -> headTail line = [line].
Proof.
  intros H. unfold headTail, split_limit. now rewrite split_no_sep.
Qed.

(** The tail that [line.split(" ", 2)] produces never contains a space. *)
Lemma headTail_tail_no_space line tail :
  nth_error (headTail line) 1 = Some tail -> ~ In space tail.
Proof.
  unfold headTail, split_limit. intros H.
  apply (split_pieces_no_sep space line).
  destruct (split space line) as [|a [|b l]]; simpl in H; try discriminate.
  injection H as <-. simpl. tauto.
Qed.

(** On a tail without a space the option string is empty and the pending
    context is kept: only the description and trigger steps act. *)
Lemma headerOfTail_no_space head tail ctx :
  ~ In space tail ->
  headerOfTail head tail ctx =
    (let tail := trim tail in
     let '(description, tail) :=
       if (1 <? len tail) && endsWith quote tail then
         let left := lastIndexOf quote (substring tail 0 (len tail - 1)) in
         if negb ((left =? -1) || (left =? 0)) then
           (substring_from tail left, substring tail 0 left)
         else ([], tail)
       else ([], tail) in
     mkHeader head [] ctx description (trim tail)).
Proof.
  intros H. unfold headerOfTail. rewrite split_no_sep by exact H.
  reflexivity.
Qed.

Lemma quoted_no_space t : ~ In space t -> ~ In space (quoted t).
Proof.
  intros H [E|Hin]; [discriminate E|].
  apply in_app_or in Hin. destruct Hin as [Hin|[E|[]]]; [tauto|discriminate E].
Qed.

Lemma len_quoted t : len (quoted t) = len t + 2.
Proof. unfold quoted. rewrite len_cons, len_app. change (len [quote]) with 1. lia. Qed.

(** A single quoted word is taken whole as the trigger candidate. *)
Lemma headerOfTail_quoted head t ctx :
  ~ In space t -> ~ In quote t ->
  headerOfTail head (quoted t) ctx = mkHeader head [] ctx [] (quoted t).
Proof.
  intros Hs Hq. rewrite headerOfTail_no_space by now apply quoted_no_space.
  assert (Ht : trim (quoted t) = quoted t) by (apply trim_keep; reflexivity).
  cbv zeta. rewrite Ht.
  assert (Hlen : (1 <? len (quoted t)) = true).
  { rewrite len_quoted. pose proof (len_nonneg t). apply Z.ltb_lt. lia. }
  rewrite Hlen.
  assert (He : endsWith quote (quoted t) = true).
  { unfold quoted. change (quote :: t ++ [quote]) with ((quote :: t) ++ [quote]).
    rewrite endsWith_snoc. reflexivity. }
  rewrite He.
  assert (Hl : lastIndexOf quote (substring (quoted t) 0 (len (quoted t) - 1)) = 0).
  { unfold quoted. change (quote :: t ++ [quote]) with ((quote :: t) ++ [quote]).
    rewrite substring_drop_last. unfold lastIndexOf. simpl.
    now apply lastIndexOf_from_absent. }
  rewrite Hl. simpl. now rewrite Ht.
Qed.

(** A tail of at most one character has no description, and the trigger
    candidate is at most one character long. *)
Lemma headerOfTail_short head tail ctx :
  ~ In space tail -> len tail <= 1 ->
  headerOfTail head tail ctx = mkHeader head [] ctx [] (trim (trim tail)).
Proof.
  intros Hs Hl. rewrite headerOfTail_no_space by exact Hs.
  cbv zeta. pose proof (len_trim tail).
  assert (E : (1 <? len (trim tail)) = false) by (apply Z.ltb_ge; lia).
  now rewrite E.
Qed.

(** The first token of a line with a space is the text before it. *)
Lemma firstToken_after_space head w :
  ~ In space head -> firstToken (head ++ space :: w) = head.
Proof.
  intros H. unfold firstToken.
  destruct (split space w) as [|p ps] eqn:E; [now apply split_nonempty in E|].
  now rewrite (headTail_after_space head w p ps H E).
Qed.

Lemma quoted_absent c t : c <> quote -> ~ In c t -> ~ In c (quoted t).
Proof.
  intros Hc Ht [E|Hin]; [congruence|].
  apply in_app_or in Hin. destruct Hin as [Hin|[E|[]]]; [tauto|congruence].
Qed.

End HeaderFacts.

(** ** The body scan and the handler *)

Section HandlerFacts.

Variable filename : jsstring.

(** Without an end marker the scan reads every line, keeps them all and
    counts them all. *)
Lemma collectBody_absent endm lines content n :
  (forall l, In l lines -> trimEnd l <> endm) ->
  collectBody endm lines content n =
    (false, content ++ concat lines, n + Z.of_nat (List.length lines)).
Proof.
  revert content n. induction lines as [|l lines IH]; intros content n H.
  - simpl. rewrite app_nil_r, Z.add_0_r. reflexivity.
  - cbn [collectBody].
    destruct (decide (trimEnd l = endm)) as [E|_].
    + exfalso. apply (H l); [now left|exact E].
    + rewrite IH by (intros l' Hl'; apply H; now right).
      cbn [concat List.length]. rewrite app_assoc.
      f_equal. lia.
Qed.

(** With an end marker anywhere in the lines, the scan finds one. *)
Lemma collectBody_present endm lines content n :
  (exists l, In l lines /\ trimEnd l = endm) ->
  exists content' n', collectBody endm lines content n = (true, content', n').
Proof.
  revert content n. induction lines as [|l lines IH]; intros content n [x [Hin Hx]].
  - destruct Hin.
  - cbn [collectBody].
    destruct (decide (trimEnd l = endm)) as [E|Hne].
    + eauto.
    + apply IH. exists x. split; [|exact Hx].
      destruct Hin as [->|Hin]; [contradiction|exact Hin].
Qed.

Lemma headerFields_after_space head w p ps ctx :
  ~ In space head -> split space w = p :: ps ->
  headerFields (head ++ space :: w) ctx = Normal (headerOfTail head p ctx).
Proof.
  intros Hh Hw. unfold headerFields.
  change (split_limit space 2 (head ++ space :: w))
    with (headTail (head ++ space :: w)).
  rewrite (headTail_after_space head w p ps Hh Hw). reflexivity.
Qed.

Lemma headerFields_no_space line ctx :
  ~ In space line -> headerFields line ctx = Throw TypeError.
Proof.
  intros H. unfold headerFields.
  change (split_limit space 2 line) with (headTail line).
  rewrite headTail_no_space by exact H. reflexivity.
Qed.

(** Whatever the header line, the handler finds no option string and keeps
    the pending context: the tail it works on is a single word. *)
Lemma headerFields_no_options line ctx h :
  headerFields line ctx = Normal h -> h_options h = [] /\ h_context h = ctx.
Proof.
  unfold headerFields.
  change (split_limit space 2 line) with (headTail line).
  destruct (nth_error (headTail line) 1) as [tail|] eqn:E; [|discriminate].
  intros H. injection H as <-.
  rewrite headerOfTail_no_space by exact (headTail_tail_no_space line tail E).
  cbv zeta. repeat case_match; simplify_eq; split; reflexivity.
Qed.

Lemma opt_neq_true x y : x <> y -> opt_neq x y = true.
Proof.
  destruct x as [a|], y as [b|]; simpl; intros H; try reflexivity.
  - destruct (N.eqb_spec a b) as [->|]; [congruence|reflexivity].
  - congruence.
Qed.

(** The handler on a header whose trigger candidate fails the delimiter
    check: the error is returned before any line of the body is read. *)
Lemma handle_invalid_trigger line n lines g p a ctx h :
  headerFields line ctx = Normal h ->
  1 < len (h_trigger h) ->
  at_first (h_trigger h) <> at_last (h_trigger h) ->
  handleSnippetOrGlobal filename line n lines g p a ctx =
    Normal (ErrorResult (invalidMultiwordTrigger (h_trigger h)) n, g).
Proof.
  intros Hh Hlen Hne. unfold handleSnippetOrGlobal. rewrite Hh.
  destruct h as [hd op cx de tr]. cbn [h_trigger] in *.
  apply Z.ltb_lt in Hlen. rewrite Hlen.
  rewrite (opt_neq_true _ _ Hne). reflexivity.
Qed.

(** The handler on [snippet "t"] when no line is the end marker. *)
Lemma handle_missing_end t n lines g p a ctx :
  ~ In space t -> ~ In quote t ->
  (forall l, In l lines -> trimEnd l <> str "endsnippet") ->
  handleSnippetOrGlobal filename (str "snippet " ++ quoted t) n lines g p a ctx =
    Normal (ErrorResult (missingEnd (str "endsnippet") t)
              (n + Z.of_nat (List.length lines)), g).
Proof.
  intros Hs Hq Hend. unfold handleSnippetOrGlobal.
  change (str "snippet " ++ quoted t) with (str "snippet" ++ space :: quoted t).
  rewrite (headerFields_after_space (str "snippet") (quoted t) (quoted t) []);
    [|absent_in_literal|now apply split_no_sep, quoted_no_space].
  rewrite headerOfTail_quoted by assumption.
  assert (Hlen : (1 <? len (quoted t)) = true).
  { rewrite len_quoted. pose proof (len_nonneg t). apply Z.ltb_lt. lia. }
  rewrite Hlen.
  assert (Hd : opt_neq (at_first (quoted t)) (at_last (quoted t)) = false).
  { unfold quoted at 2. change (quote :: t ++ [quote]) with ((quote :: t) ++ [quote]).
    rewrite at_last_snoc. reflexivity. }
  rewrite Hd. cbn [orb andb].
  assert (Hsub : substring (quoted t) 1 (len (quoted t) - 1) = t)
    by apply substring_strip.
  rewrite Hsub.
  change (str "end" ++ str "snippet") with (str "endsnippet").
  rewrite collectBody_absent by exact Hend.
  reflexivity.
Qed.

(** The handler on a [global] header whose key has at most one character,
    with an end marker among the lines and [null] for the accumulator:
    the [global] case indexes [null]. *)
Lemma handle_global_null w key ps n lines pr a ctx :
  split space w = key :: ps -> len key <= 1 ->
  (exists l, In l lines /\ trimEnd l = str "endglobal") ->
  handleSnippetOrGlobal filename (str "global" ++ space :: w) n lines None pr a ctx
    = Throw TypeError.
Proof.
  intros Hw Hl Hend. unfold handleSnippetOrGlobal.
  assert (Hs : ~ In space key).
  { apply (split_pieces_no_sep space w). rewrite Hw. now left. }
  rewrite (headerFields_after_space (str "global") w key ps);
    [|absent_in_literal|exact Hw].
  rewrite headerOfTail_short by assumption.
  assert (E : (1 <? len (trim (trim key))) = false).
  { pose proof (len_trim (trim key)). pose proof (len_trim key).
    apply Z.ltb_ge. lia. }
  rewrite E. cbn [includes existsb orb andb].
  change (str "end" ++ str "global") with (str "endglobal").
  destruct (collectBody_present (str "endglobal") lines [] n Hend)
    as (content & n' & Hc).
  rewrite Hc. cbn [negb].
  destruct (decide (str "global" = str "global")) as [_|Hne]; [reflexivity|].
  now destruct Hne.
Qed.

(** A record built by the handler carries the priority it was given. *)
Lemma handle_snippet_priority line n lines g p a ctx r g' :
  handleSnippetOrGlobal filename line n lines g p a ctx
    = Normal (SnippetResult r, g') ->
  priority r = p.
Proof.
  unfold handleSnippetOrGlobal. intros H.
  repeat case_match; simplify_eq; reflexivity.
Qed.

End HandlerFacts.

(** ** The file scan *)

Section ScanFacts.

Variable filename : jsstring.
Variable all : list jsstring.

Lemma isDirective_false h :
  h <> str "snippet" -> h <> str "global" -> isDirective h = false.
Proof.
  intros H1 H2. unfold isDirective.
  rewrite !bool_decide_eq_false_2 by assumption. reflexivity.
Qed.

(** One step of the loop on a plain line. *)
Lemma scan_plain_step st l rest :
  plainLine l ->
  scan filename all st (l :: rest) = scan filename all st rest
  \/ scan filename all st (l :: rest)
     = scan filename all (withLineNumber st (s_currentLineNumber st + 1)) rest.
Proof.
  intros Hl. cbn [scan].
  destruct (decide (trim l = [])) as [_|Hnb]; [now left|].
  destruct Hl as [Hb|[H1 H2]]; [contradiction|].
  rewrite (isDirective_false _ H1 H2). now right.
Qed.

(** The generator never yields. *)
Lemma scan_yields_nothing st rest : yielded (scan filename all st rest) = [].
Proof.
  revert st. induction rest as [|l rest IH]; intros st; [reflexivity|].
  cbn [scan].
  destruct (decide (trim l = [])); [apply IH|].
  destruct (isDirective (firstToken l)); [|apply IH].
  destruct (handleSnippetOrGlobal _ _ _ _ _ _ _ _) as [[r g]|e]; reflexivity.
Qed.

(** Plain lines only: the loop runs to the end. *)
Lemma scan_plain_lines st rest :
  (forall l, In l rest -> plainLine l) ->
  scan filename all st rest = mkGenerator [] Done.
Proof.
  revert st. induction rest as [|l rest IH]; intros st H; [reflexivity|].
  assert (Hrest : forall l', In l' rest -> plainLine l')
    by (intros l' Hl'; apply H; now right).
  destruct (scan_plain_step st l rest (H l (or_introl eq_refl))) as [E|E];
    rewrite E; now apply IH.
Qed.

(** Plain lines before a block only move the line counter. *)
Lemma scan_skip_plain st pre rest :
  (forall l, In l pre -> plainLine l) ->
  exists n,
    scan filename all st (pre ++ rest)
    = scan filename all (withLineNumber st n) rest.
Proof.
  revert st. induction pre as [|l pre IH]; intros st H.
  - exists (s_currentLineNumber st). now destruct st.
  - assert (Hpre : forall l', In l' pre -> plainLine l')
      by (intros l' Hl'; apply H; now right).
    cbn [app].
    destruct (scan_plain_step st l (pre ++ rest) (H l (or_introl eq_refl)))
      as [E|E]; rewrite E.
    + now apply IH.
    + destruct (IH (withLineNumber st (s_currentLineNumber st + 1)) Hpre)
        as [n Hn].
      exists n. exact Hn.
Qed.

(** The loop on a line that opens a block: the handler's result ends the
    generator. *)
Lemma scan_directive st l rest :
  trim l <> [] -> isDirective (firstToken l) = true ->
  scan filename all st (l :: rest) =
    match handleSnippetOrGlobal filename l (s_currentLineNumber st) all
            (s_pythonGlobals st) (s_currentPriority st) (s_actions st)
            (s_context st) with
    | Throw e => mkGenerator [] (Raised e)
    | Normal (snippet, _) => mkGenerator [] (Returned snippet)
    end.
Proof.
  intros Hnb Hd. cbn [scan].
  destruct (decide (trim l = [])) as [Hb|_]; [contradiction|].
  now rewrite Hd.
Qed.

(** The priority of a record the scan builds is the ambient priority. *)
Lemma scan_priority st rest r :
  completion (scan filename all st rest) = Returned (SnippetResult r) ->
  priority r = s_currentPriority st.
Proof.
  revert st. induction rest as [|l rest IH]; intros st; [discriminate|].
  cbn [scan].
  destruct (decide (trim l = [])); [apply IH|].
  destruct (isDirective (firstToken l)); [|apply (IH (mkScanState _ _ _ _ _))].
  destruct (handleSnippetOrGlobal _ _ _ _ _ _ _ _) as [[res g]|e] eqn:E;
    [|discriminate].
  cbn [completion]. intros H. injection H as ->.
  exact (handle_snippet_priority _ _ _ _ _ _ _ _ _ _ E).
Qed.

End ScanFacts.

(** ** Behaviour of the parser *)

(** C1 (the code departs from it).  On the file made of the header
    [snippet "trig" "desc"], the body line [BODY] and the line [endsnippet],
    the generator yields no record.  The record that the handler builds,
    carried by the [return] of the generator, has trigger [trig], an empty
    description, and for body the header line followed by [BOD]: the body
    scan starts at the first line of the file, lines are joined without
    their newline, and the chomp removes the last character. *)
Theorem single_block_run :
  forall filename,
    parseSnippets filename singleBlock =
      mkGenerator []
        (Returned (SnippetResult
           (mkSnippetDefinition 0 (str "trig")
              (str "snippet " ++ quoted (str "trig") ++ str " "
                 ++ quoted (str "desc") ++ str "BOD")
              [] [] None (filename ++ str ":0") None ∅)))
    /\ loadFile filename singleBlock = Normal [].
Proof. intros filename. split; reflexivity. Qed.

(** C2.  Whatever the input, the generator yields no record: what
    [loadSnippets] collects for a file is the empty array, unless the
    generator raises. *)
Theorem parseSnippets_yields_nothing :
  forall filename raw,
    yielded (parseSnippets filename raw) = []
    /\ (loadFile filename raw = Normal [] \/ loadFile filename raw = Throw TypeError).
Proof.
  intros filename raw. unfold loadFile, spread, parseSnippets.
  pose proof (scan_yields_nothing filename (split newline raw) initialState
                (split newline raw)) as Hy.
  split; [exact Hy|].
  destruct (completion _) as [|r|[]]; rewrite ?Hy; auto.
Qed.

(** C3 (the code departs from it).  On the header [snippet "trig" "desc"]
    the split keeps the keyword and the second word only: the tail is
    ["trig"], not everything after the first space, and the description is
    lost. *)
Theorem headTail_three_words :
  let header := str "snippet " ++ quoted (str "trig") ++ str " " ++ quoted (str "desc") in
  headTail header = [str "snippet"; quoted (str "trig")]
  /\ nth_error (headTail header) 1
       <> Some (quoted (str "trig") ++ str " " ++ quoted (str "desc"))
  /\ headerFields header None
       = Normal (mkHeader (str "snippet") [] None [] (quoted (str "trig"))).
Proof.
  split; [reflexivity|]. split; [|reflexivity].
  intros H. vm_compute in H. discriminate H.
Qed.

(** C4 (the code departs from it).  On the file [snippet abc] the handler
    returns an invalid-trigger error, the generator ends by returning it,
    and the array collected for the file is empty: the error is not part of
    what the load produces. *)
Theorem error_not_in_load_result :
  forall filename,
    handleSnippetOrGlobal filename unquotedHeader 0 (split newline unquotedHeader)
      None 0 ∅ None
      = Normal (ErrorResult (invalidMultiwordTrigger (str "abc")) 0, None)
    /\ completion (parseSnippets filename unquotedHeader)
       = Returned (ErrorResult (invalidMultiwordTrigger (str "abc")) 0)
    /\ loadFile filename unquotedHeader = Normal [].
Proof. intros filename. split; [|split]; reflexivity. Qed.

(** C5 (the code departs from it).  On the file made of the header
    [snippet "two words"] and of the line [BODY], with no end marker, the
    split of the header keeps for tail the opening quote and [two] only:
    the handler returns the error [Invalid multiword trigger] for that half
    of the trigger, at counter 0, and
    never reaches the scan for the end marker; the generator ends by
    returning that error and the array collected for the file is empty. *)
Theorem unterminated_two_words_run :
  forall filename,
    handleSnippetOrGlobal filename (str "snippet " ++ quoted (str "two words")) 0
      (split newline twoWordTrigger) None 0 ∅ None
      = Normal (ErrorResult (invalidMultiwordTrigger (quote :: str "two")) 0, None)
    /\ completion (parseSnippets filename twoWordTrigger)
       = Returned (ErrorResult (invalidMultiwordTrigger (quote :: str "two")) 0)
    /\ (forall t, invalidMultiwordTrigger (quote :: str "two")
                  <> missingEnd (str "endsnippet") t)
    /\ loadFile filename twoWordTrigger = Normal [].
Proof.
  intros filename. split; [reflexivity|]. split; [reflexivity|].
  split; [|reflexivity].
  intros t E. apply (f_equal (firstn 1)) in E. vm_compute in E. discriminate E.
Qed.

(** X20.  On a file made of the header [snippet "t"], with [t] a single
    word (no space, no quote), and of further lines none of which is the
    end marker, the handler (called at line counter 0 with all the lines of
    the file) returns the error [Missing 'endsnippet' for 't'] with the
    number of lines of the file; the generator yields nothing and ends by
    returning that error, and the array collected for the file is empty. *)
Theorem missing_end_marker :
  forall filename t rest,
    ~ In space t -> ~ In quote t -> ~ In newline t ->
    (forall l, In l (split newline rest) -> trimEnd l <> str "endsnippet") ->
    let header := str "snippet " ++ quoted t in
    let raw := header ++ newline :: rest in
    let lastLine := Z.of_nat (List.length (split newline raw)) in
    handleSnippetOrGlobal filename header 0 (split newline raw) None 0 ∅ None
      = Normal (ErrorResult (missingEnd (str "endsnippet") t) lastLine, None)
    /\ parseSnippets filename raw
       = mkGenerator []
           (Returned (ErrorResult (missingEnd (str "endsnippet") t) lastLine))
    /\ loadFile filename raw = Normal [].
Proof.
  intros filename t rest Hs Hq Hn Hrest header raw lastLine.
  assert (Hsplit : split newline raw = header :: split newline rest).
  { apply split_app_sep. unfold header. intros Hin.
    apply in_app_or in Hin. destruct Hin as [Hin|Hin].
    - revert Hin. absent_in_literal.
    - revert Hin. now apply quoted_absent. }
  assert (Hkeep : trimEnd header = header).
  { unfold header, quoted.
    change (str "snippet " ++ quote :: t ++ [quote])
      with ((str "snippet " ++ quote :: t) ++ [quote]).
    now apply trimEnd_keep. }
  assert (Hall : forall l, In l (split newline raw) -> trimEnd l <> str "endsnippet").
  { rewrite Hsplit. intros l [<-|Hl]; [|now apply Hrest].
    rewrite Hkeep. unfold header. intros E. cbv in E. discriminate E. }
  assert (Hhandle :
    handleSnippetOrGlobal filename header 0 (split newline raw) None 0 ∅ None
      = Normal (ErrorResult (missingEnd (str "endsnippet") t) lastLine, None)).
  { unfold header. rewrite (handle_missing_end filename t 0 _ None 0 ∅ None Hs Hq Hall).
    reflexivity. }
  assert (Hrun : parseSnippets filename raw
                 = mkGenerator []
                     (Returned (ErrorResult (missingEnd (str "endsnippet") t)
                                  lastLine))).
  { unfold parseSnippets. rewrite Hsplit at 2.
    rewrite scan_directive.
    - cbn [s_currentLineNumber s_pythonGlobals s_currentPriority s_actions
             s_context initialState].
      rewrite Hhandle. reflexivity.
    - unfold header. apply (trim_not_blank 115%N). reflexivity.
    - unfold header.
      change (str "snippet " ++ quoted t) with (str "snippet" ++ space :: quoted t).
      rewrite firstToken_after_space by absent_in_literal. reflexivity. }
  split; [exact Hhandle|]. split; [exact Hrun|].
  unfold loadFile. rewrite Hrun. reflexivity.
Qed.

Lemma missing_end_marker_witness :
  (~ In space (str "t") /\ ~ In quote (str "t") /\ ~ In newline (str "t")
   /\ forall l, In l (split newline (str "BODY")) -> trimEnd l <> str "endsnippet")
  /\ parseSnippets pythonFile unterminated
     = mkGenerator [] (Returned (ErrorResult (str "Missing 'endsnippet' for 't'") 2))
  /\ loadFile pythonFile unterminated = Normal [].
Proof.
  assert (H1 : ~ In space (str "t")) by absent_in_literal.
  assert (H2 : ~ In quote (str "t")) by absent_in_literal.
  assert (H3 : ~ In newline (str "t")) by absent_in_literal.
  assert (H4 : forall l, In l (split newline (str "BODY")) ->
                         trimEnd l <> str "endsnippet").
  { intros l Hl. vm_compute in Hl. destruct Hl as [<-|[]].
    intros E. vm_compute in E. discriminate E. }
  split; [tauto|].
  exact (proj2 (missing_end_marker pythonFile (str "t") (str "BODY") H1 H2 H3 H4)).
Defined.

(** C6 (the code departs from it).  On two blank lines followed by the
    header [snippet abc], the error [Invalid multiword trigger: 'abc'] is
    returned with line number 0, the blank lines having been skipped without
    being counted, while the header is the third line of the file.  On the
    header [snippet x yz], whose trigger text [x yz] is longer than one
    character with different first and last characters, the split keeps [x]
    alone and the handler builds a record with trigger [x] instead of
    returning the error.  In both cases the array collected for the file is
    empty. *)
Theorem unquoted_multiword_run :
  forall filename,
    completion (parseSnippets filename blankThenUnquoted)
      = Returned (ErrorResult (invalidMultiwordTrigger (str "abc")) 0)
    /\ nth_error (split newline blankThenUnquoted) 2 = Some (str "snippet abc")
    /\ loadFile filename blankThenUnquoted = Normal []
    /\ completion (parseSnippets filename unquotedTwoWords)
       = Returned (SnippetResult
                     (mkSnippetDefinition 0 (str "x") (str "snippet x yzbod") [] []
                        None (filename ++ str ":0") None ∅))
    /\ loadFile filename unquotedTwoWords = Normal [].
Proof. intros filename. repeat (split; [reflexivity|]). reflexivity. Qed.

(** C7 (the code departs from it).  On a file with a global block followed
    by a snippet block, the [global] case indexes the accumulator, which is
    [null]: the generator raises, no record is produced and no snippet ever
    sees the text of the global. *)
Theorem global_then_snippet_run :
  forall filename,
    parseSnippets filename globalThenSnippet = mkGenerator [] (Raised TypeError)
    /\ loadFile filename globalThenSnippet = Throw TypeError.
Proof. intros filename. split; reflexivity. Qed.

(** C8, as stated, fails: after the line [priority 5] and two snippet
    blocks the generator does not yield two records of priority 5; it
    yields none, and the record that the handler builds for the first block
    has priority 0. *)
Lemma priority_line_ignored :
  ~ (exists r1 r2,
        yielded (parseSnippets pythonFile priorityThenTwo) = [r1; r2]
        /\ priority r1 = 5 /\ priority r2 = 5)
  /\ exists r,
       completion (parseSnippets pythonFile priorityThenTwo)
         = Returned (SnippetResult r)
       /\ trigger r = str "a" /\ priority r = 0.
Proof.
  split.
  - intros (r1 & r2 & H & _). vm_compute in H. discriminate H.
  - eexists. split; [reflexivity|]. split; reflexivity.
Qed.

(** C8, amended.  The ambient priority is 0 and no line changes it (a
    [priority] line is passed over like any line that opens no block): every
    record produced in a scan, yielded or carried by the [return] of the
    generator, has priority 0, whatever the file contains. *)
Theorem priority_always_zero :
  forall filename raw r,
    In r (yielded (parseSnippets filename raw))
    \/ completion (parseSnippets filename raw) = Returned (SnippetResult r) ->
    priority r = 0.
Proof.
  intros filename raw r [H|H].
  - unfold parseSnippets in H. rewrite scan_yields_nothing in H. destruct H.
  - exact (scan_priority filename _ initialState _ r H).
Qed.

Lemma priority_always_zero_witness :
  let r := mkSnippetDefinition 0 (str "a") (str "priority 5snippet aon") [] []
             None (pythonFile ++ str ":1") None ∅ in
  (In r (yielded (parseSnippets pythonFile priorityThenTwo))
   \/ completion (parseSnippets pythonFile priorityThenTwo)
      = Returned (SnippetResult r))
  /\ firstToken (str "priority 5") = str "priority"
  /\ priority r = 0.
Proof.
  intros r.
  assert (H : In r (yielded (parseSnippets pythonFile priorityThenTwo))
              \/ completion (parseSnippets pythonFile priorityThenTwo)
                 = Returned (SnippetResult r)) by (right; reflexivity).
  split; [exact H|]. split; [reflexivity|].
  exact (priority_always_zero pythonFile priorityThenTwo r H).
Defined.

(** C9.  When the first line of a file that is neither blank nor plain is
    the header [global k], with [k] a single character, and a later line is
    the end marker [endglobal], the [global] case of the handler indexes the
    accumulator, which is [null]: the generator raises a [TypeError] and the
    load of the file raises with it. *)
Theorem global_block_raises :
  forall filename raw pre k rest,
    split newline raw = pre ++ (str "global " ++ [k]) :: rest ->
    (forall l, In l pre -> plainLine l) ->
    (exists l, In l rest /\ trimEnd l = str "endglobal") ->
    parseSnippets filename raw = mkGenerator [] (Raised TypeError)
    /\ loadFile filename raw = Throw TypeError.
Proof.
  intros filename raw pre k rest Hsplit Hpre (e & He & Hend).
  assert (Hrun : parseSnippets filename raw = mkGenerator [] (Raised TypeError)).
  { unfold parseSnippets. rewrite Hsplit.
    set (header := str "global " ++ [k]).
    set (all := pre ++ header :: rest).
    destruct (scan_skip_plain filename all initialState pre (header :: rest) Hpre)
      as [n Hn].
    unfold all at 2. rewrite Hn. rewrite scan_directive.
    - cbn [withLineNumber initialState s_currentLineNumber s_pythonGlobals
             s_currentPriority s_actions s_context].
      assert (Hin : exists l, In l all /\ trimEnd l = str "endglobal").
      { exists e. split; [|exact Hend]. unfold all.
        apply in_or_app. right. now right. }
      unfold header.
      change (str "global " ++ [k]) with (str "global" ++ space :: [k]).
      destruct (N.eqb_spec k space) as [->|Hk].
      + rewrite (handle_global_null filename [space] [] [[]] n all 0 ∅ None);
          [reflexivity|reflexivity|cbv; discriminate|exact Hin].
      + rewrite (handle_global_null filename [k] [k] [] n all 0 ∅ None);
          [reflexivity| |cbv; discriminate|exact Hin].
        apply split_no_sep. intros [E|[]]. congruence.
    - unfold header. apply (trim_not_blank 103%N). reflexivity.
    - unfold header.
      change (str "global " ++ [k]) with (str "global" ++ space :: [k]).
      rewrite firstToken_after_space by absent_in_literal. reflexivity. }
  split; [exact Hrun|].
  unfold loadFile. rewrite Hrun. reflexivity.
Qed.

Lemma global_block_raises_witness :
  let pre := [str "# helpers"; []] in
  let rest := [str "import re"; str "endglobal"] in
  (split newline commentThenGlobal = pre ++ (str "global " ++ [103%N]) :: rest
   /\ (forall l, In l pre -> plainLine l)
   /\ (exists l, In l rest /\ trimEnd l = str "endglobal"))
  /\ parseSnippets pythonFile commentThenGlobal = mkGenerator [] (Raised TypeError)
  /\ loadFile pythonFile commentThenGlobal = Throw TypeError.
Proof.
  intros pre rest.
  assert (H1 : split newline commentThenGlobal
               = pre ++ (str "global " ++ [103%N]) :: rest) by reflexivity.
  assert (H2 : forall l, In l pre -> plainLine l).
  { intros l [<-|[<-|[]]]; plain_line. }
  assert (H3 : exists l, In l rest /\ trimEnd l = str "endglobal").
  { exists (str "endglobal"). split; [right; left; reflexivity|reflexivity]. }
  split; [auto|].
  exact (global_block_raises pythonFile commentThenGlobal pre 103%N rest H1 H2 H3).
Defined.

(** C10.  When every line of a file is blank or has a first token other
    than [snippet] and [global], the generator runs to its end without
    yielding, returning or raising, and the array collected for the file is
    empty. *)
Theorem no_directive_no_record :
  forall filename raw,
    (forall l, In l (split newline raw) -> plainLine l) ->
    parseSnippets filename raw = mkGenerator [] Done
    /\ loadFile filename raw = Normal [].
Proof.
  intros filename raw H.
  assert (Hrun : parseSnippets filename raw = mkGenerator [] Done)
    by (unfold parseSnippets; now apply scan_plain_lines).
  split; [exact Hrun|]. unfold loadFile. rewrite Hrun. reflexivity.
Qed.

Lemma no_directive_no_record_witness :
  (forall l, In l (split newline noDirective) -> plainLine l)
  /\ parseSnippets pythonFile noDirective = mkGenerator [] Done
  /\ loadFile pythonFile noDirective = Normal [].
Proof.
  assert (H : forall l, In l (split newline noDirective) -> plainLine l).
  { intros l Hl. vm_compute in Hl.
    repeat (destruct Hl as [<-|Hl]; [plain_line|]). destruct Hl. }
  split; [exact H|].
  exact (no_directive_no_record pythonFile noDirective H).
Defined.


(** * Further properties *)

(** ** Lines *)

Section LineFacts.

Lemma unlines_cons l ls :
  ls <> [] -> unlines (l :: ls) = l ++ newline :: unlines ls.
Proof. destruct ls; [congruence|reflexivity]. Qed.

Lemma unlines_split raw : unlines (split newline raw) = raw.
Proof.
  induction raw as [|c raw IH]; [reflexivity|].
  cbn [split]. destruct (N.eqb_spec c newline) as [->|Hc].
  - rewrite unlines_cons by apply split_nonempty. now rewrite IH.
  - destruct (split newline raw) as [|w ws] eqn:E; [now apply split_nonempty in E|].
    destruct ws as [|w' ws].
    + cbn in IH |- *. now rewrite IH.
    + rewrite unlines_cons by discriminate.
      rewrite unlines_cons in IH by discriminate.
      cbn [app]. now rewrite IH.
Qed.

Lemma split_unlines ls :
  ls <> [] -> (forall l, In l ls -> ~ In newline l) ->
  split newline (unlines ls) = ls.
Proof.
  induction ls as [|l ls IH]; [congruence|]. intros _ H.
  destruct ls as [|l' ls].
  - cbn [unlines]. apply split_no_sep, H. now left.
  - rewrite unlines_cons by discriminate.
    rewrite split_app_sep by (apply H; now left).
    rewrite IH; [reflexivity|discriminate|].
    intros x Hx. apply H. now right.
Qed.

Lemma countedLines_blank l ls :
  trim l = [] -> countedLines (l :: ls) = countedLines ls.
Proof.
  intros H. unfold countedLines. cbn [List.filter].
  rewrite bool_decide_eq_true_2 by exact H. reflexivity.
Qed.

Lemma countedLines_counted l ls :
  trim l <> [] -> countedLines (l :: ls) = countedLines ls + 1.
Proof.
  intros H. unfold countedLines. cbn [List.filter].
  rewrite bool_decide_eq_false_2 by exact H. cbn [negb List.length]. lia.
Qed.

Lemma isDirective_true h :
  h = str "snippet" \/ h = str "global" -> isDirective h = true.
Proof. intros [->| ->]; reflexivity. Qed.

Lemma isDirective_cases h :
  isDirective h = true -> h = str "snippet" \/ h = str "global".
Proof.
  unfold isDirective. intros H. apply orb_true_iff in H.
  destruct H as [H|H]; apply bool_decide_eq_true_1 in H; auto.
Qed.

End LineFacts.

(** ** The scan, line by line *)

Section ScanRuns.

Variable filename : jsstring.
Variable all : list jsstring.

(** Plain lines move the counter by the number of them that are not
    blank, and change nothing else. *)
Lemma scan_skip_counted st pre rest :
  (forall l, In l pre -> plainLine l) ->
  scan filename all st (pre ++ rest)
  = scan filename all
      (withLineNumber st (s_currentLineNumber st + countedLines pre)) rest.
Proof.
  revert st. induction pre as [|l pre IH]; intros st H.
  - cbn [app]. change (countedLines []) with 0. rewrite Z.add_0_r.
    now destruct st.
  - assert (Hpre : forall l', In l' pre -> plainLine l')
      by (intros l' Hl'; apply H; now right).
    cbn [app scan].
    destruct (decide (trim l = [])) as [Hb|Hnb].
    + rewrite (countedLines_blank l pre Hb). now apply IH.
    + destruct (H l (or_introl eq_refl)) as [Hb|[H1 H2]]; [contradiction|].
      rewrite (isDirective_false _ H1 H2).
      rewrite (countedLines_counted l pre Hnb).
      change (mkScanState (s_pythonGlobals st) (s_currentLineNumber st + 1)
                (s_currentPriority st) (s_actions st) (s_context st))
        with (withLineNumber st (s_currentLineNumber st + 1)).
      rewrite (IH _ Hpre). unfold withLineNumber.
      cbn [s_pythonGlobals s_currentLineNumber s_currentPriority s_actions s_context].
      f_equal. f_equal. lia.
Qed.

(** A run that falls off the end has met plain lines only. *)
Lemma scan_done_plain st rest :
  completion (scan filename all st rest) = Done ->
  forall l, In l rest -> plainLine l.
Proof.
  revert st. induction rest as [|l rest IH]; intros st H x Hx; [destruct Hx|].
  cbn [scan] in H.
  destruct (decide (trim l = [])) as [Hb|Hnb].
  - destruct Hx as [<-|Hx]; [now left|]. exact (IH st H x Hx).
  - destruct (isDirective (firstToken l)) eqn:Hd.
    + destruct (handleSnippetOrGlobal _ _ _ _ _ _ _ _) as [[r g]|e]; discriminate H.
    + destruct Hx as [<-|Hx]; [|exact (IH _ H x Hx)].
      right. unfold isDirective in Hd. apply orb_false_iff in Hd.
      destruct Hd as [H1 H2].
      apply bool_decide_eq_false_1 in H1. apply bool_decide_eq_false_1 in H2.
      now split.
Qed.

(** What a run returns was returned by the handler, called with the
    accumulator, priority, actions and context of the state. *)
Lemma scan_returned st rest res :
  completion (scan filename all st rest) = Returned res ->
  exists line n g',
    isDirective (firstToken line) = true
    /\ handleSnippetOrGlobal filename line n all (s_pythonGlobals st)
         (s_currentPriority st) (s_actions st) (s_context st)
       = Normal (res, g').
Proof.
  revert st. induction rest as [|l rest IH]; intros st; [discriminate|].
  cbn [scan].
  destruct (decide (trim l = [])); [apply IH|].
  destruct (isDirective (firstToken l)) eqn:Hd;
    [|apply (IH (mkScanState _ _ _ _ _))].
  destruct (handleSnippetOrGlobal _ _ _ _ _ _ _ _) as [[r g]|e] eqn:E;
    [|discriminate].
  cbn [completion]. intros H. injection H as ->.
  exists l, (s_currentLineNumber st), g. auto.
Qed.

End ScanRuns.

(** ** The handler, case by case *)

Section HandlerRuns.

Variable filename : jsstring.

(** At the first end marker the scan stops with the lines before it,
    joined and chomped, and with the counter moved by their number. *)
Lemma collectBody_found endm before e after content n :
  (forall l, In l before -> trimEnd l <> endm) -> trimEnd e = endm ->
  collectBody endm (before ++ e :: after) content n
  = (true, chomp (content ++ concat before), n + Z.of_nat (List.length before)).
Proof.
  revert content n. induction before as [|l before IH]; intros content n H He.
  - cbn [app collectBody concat List.length].
    destruct (decide (trimEnd e = endm)) as [_|Hne]; [|contradiction].
    rewrite app_nil_r, Z.add_0_r. reflexivity.
  - cbn [app collectBody].
    destruct (decide (trimEnd l = endm)) as [E|_].
    + exfalso. apply (H l); [now left|exact E].
    + rewrite IH; [|intros l' Hl'; apply H; now right|exact He].
      cbn [concat List.length]. rewrite app_assoc. f_equal. lia.
Qed.

Lemma collectBody_counter endm lines content n found content' n' :
  collectBody endm lines content n = (found, content', n') ->
  n <= n' <= n + Z.of_nat (List.length lines)
  /\ (found = false -> n' = n + Z.of_nat (List.length lines)).
Proof.
  revert content n. induction lines as [|l lines IH]; intros content n H.
  - cbn in H. injection H as <- <- <-. cbn [List.length]. split; [lia|]. intros _. lia.
  - cbn [collectBody] in H.
    destruct (decide (trimEnd l = endm)) as [_|_].
    + injection H as <- <- <-. cbn [List.length]. split; [lia|discriminate].
    + apply IH in H. cbn [List.length]. destruct H as [H1 H2].
      split; [lia|]. intros Hf. rewrite (H2 Hf). lia.
Qed.

Lemma headerFields_head line ctx h :
  headerFields line ctx = Normal h -> h_head h = firstToken line.
Proof.
  unfold headerFields.
  destruct (nth_error (split_limit space 2 line) 1) as [tail|]; [|discriminate].
  intros H. injection H as <-. unfold headerOfTail.
  repeat case_match; reflexivity.
Qed.

Lemma snippet_not_global : str "snippet" <> str "global".
Proof. intros E. vm_compute in E. discriminate E. Qed.

(** The handler on a [snippet] header that passes the delimiter check,
    when an end marker follows: the record, field by field. *)
Lemma handle_snippet_found line n before e after g p a ctx opts ctx' desc cand :
  headerFields line ctx = Normal (mkHeader (str "snippet") opts ctx' desc cand) ->
  ((1 <? len cand) || includes 114%N opts)
    && opt_neq (at_first cand) (at_last cand) = false ->
  (forall l, In l before -> trimEnd l <> str "endsnippet") ->
  trimEnd e = str "endsnippet" ->
  handleSnippetOrGlobal filename line n (before ++ e :: after) g p a ctx =
    Normal (SnippetResult
              (mkSnippetDefinition p
                 (if (1 <? len cand) || includes 114%N opts
                  then substring cand 1 (len cand - 1) else cand)
                 (chomp (concat before)) desc opts g
                 (filename ++ str ":" ++ number_to_string n) ctx' a),
            g).
Proof.
  intros Hh Hchk Hb He. unfold handleSnippetOrGlobal. rewrite Hh, Hchk.
  change (str "end" ++ str "snippet") with (str "endsnippet").
  rewrite (collectBody_found _ before e after [] n Hb He).
  cbn [negb app].
  destruct (decide (str "snippet" = str "global")) as [E|_];
    [now apply snippet_not_global in E|].
  destruct (decide (str "snippet" = str "snippet")) as [_|E]; [reflexivity|].
  now destruct E.
Qed.

End HandlerRuns.

Section HandlerInversion.

Variable filename : jsstring.

(** A successful body scan stopped at the first end marker. *)
Lemma collectBody_true_inv endm lines content n content' n' :
  collectBody endm lines content n = (true, content', n') ->
  exists before e after,
    lines = before ++ e :: after
    /\ (forall l, In l before -> trimEnd l <> endm)
    /\ trimEnd e = endm
    /\ content' = chomp (content ++ concat before)
    /\ n' = n + Z.of_nat (List.length before).
Proof.
  revert content n. induction lines as [|l lines IH]; intros content n H.
  - discriminate H.
  - cbn [collectBody] in H.
    destruct (decide (trimEnd l = endm)) as [E|Hne].
    + injection H as <- <-. exists [], l, lines.
      cbn [app concat List.length]. rewrite app_nil_r, Z.add_0_r.
      repeat split; try assumption. intros x [].
    + destruct (IH _ _ H) as (before & e & after & -> & Hb & He & -> & ->).
      exists (l :: before), e, after. cbn [app concat List.length].
      rewrite app_assoc. repeat split; try assumption; [|lia].
      intros x [<-|Hx]; [exact Hne|now apply Hb].
Qed.

(** A record returned by the handler, read back: the header is a [snippet]
    header, the body is what precedes the first end marker in [lines], and
    the other fields are the arguments of the call; the option string is
    empty and the accumulator is left as it was. *)
Lemma handle_record_inv line n lines g p a ctx r g' :
  handleSnippetOrGlobal filename line n lines g p a ctx
    = Normal (SnippetResult r, g') ->
  firstToken line = str "snippet"
  /\ (exists before e after,
        lines = before ++ e :: after
        /\ (forall l, In l before -> trimEnd l <> str "endsnippet")
        /\ trimEnd e = str "endsnippet"
        /\ value r = chomp (concat before))
  /\ priority r = p /\ options r = [] /\ context r = ctx /\ actions r = a
  /\ globals r = g /\ g' = g
  /\ location r = filename ++ str ":" ++ number_to_string n.
Proof.
  unfold handleSnippetOrGlobal.
  destruct (headerFields line ctx) as [h|e] eqn:Hh; [|discriminate].
  pose proof (headerFields_head line ctx h Hh) as Hhead.
  destruct (headerFields_no_options line ctx h Hh) as [Hopt Hctx].
  destruct h as [hd op cx de tr]. cbn [h_head h_options h_context] in *. subst.
  destruct (_ && _); [discriminate|].
  destruct (collectBody _ _ _ _) as [[found content] n'] eqn:Hc.
  destruct found; cbn [negb]; [|discriminate].
  destruct (decide (firstToken line = str "global")) as [_|_].
  { destruct g as [g0|]; [|discriminate].
    destruct (g0 !! _); discriminate. }
  destruct (decide (firstToken line = str "snippet")) as [Hs|_]; [|discriminate].
  intros H. injection H as <- <-. cbn.
  destruct (collectBody_true_inv _ _ _ _ _ _ Hc)
    as (before & e & after & Hl & Hb & He & Hcontent & _).
  rewrite Hs in Hb, He.
  change (str "end" ++ str "snippet") with (str "endsnippet") in Hb, He.
  repeat split; try reflexivity; try assumption.
  exists before, e, after. repeat split; assumption.
Qed.

(** With [null] for the accumulator and a [snippet] or [global] header, an
    error returned by the handler is an invalid trigger at the header's
    counter, or a missing end marker at the counter past the last line. *)
Lemma handle_error_kinds line n lines p a ctx m k g' :
  isDirective (firstToken line) = true ->
  handleSnippetOrGlobal filename line n lines None p a ctx
    = Normal (ErrorResult m k, g') ->
  (exists t, m = invalidMultiwordTrigger t /\ k = n)
  \/ (exists t, m = missingEnd (str "end" ++ firstToken line) t
                /\ k = n + Z.of_nat (List.length lines)).
Proof.
  intros Hd. unfold handleSnippetOrGlobal.
  destruct (headerFields line ctx) as [h|e] eqn:Hh; [|discriminate].
  pose proof (headerFields_head line ctx h Hh) as Hhead.
  destruct h as [hd op cx de tr]. cbn [h_head] in Hhead. subst hd.
  destruct (_ && _).
  { intros H. injection H as <- <- _. left. eauto. }
  destruct (collectBody _ _ _ _) as [[found content] n'] eqn:Hc.
  destruct found; cbn [negb].
  - destruct (decide (firstToken line = str "global")) as [_|Hg]; [discriminate|].
    destruct (decide (firstToken line = str "snippet")) as [_|Hs]; [discriminate|].
    apply isDirective_cases in Hd. tauto.
  - intros H. injection H as <- <- _. right.
    destruct (collectBody_counter _ _ _ _ _ _ _ Hc) as [_ Hn].
    eexists. split; [reflexivity|]. now apply Hn.
Qed.

(** The only change the handler makes to the accumulator: on a [global]
    header, one fragment appended to the array of a key the object has. *)
Lemma handle_accumulator line n lines g p a ctx r g' :
  handleSnippetOrGlobal filename line n lines g p a ctx = Normal (r, g') ->
  g' = g
  \/ (firstToken line = str "global"
      /\ exists g0 key fragments content,
           g = Some g0 /\ g0 !! key = Some fragments
           /\ g' = Some (<[key := fragments ++ [content]]> g0)).
Proof.
  unfold handleSnippetOrGlobal.
  destruct (headerFields line ctx) as [h|e] eqn:Hh; [|discriminate].
  pose proof (headerFields_head line ctx h Hh) as Hhead.
  destruct h as [hd op cx de tr]. cbn [h_head] in Hhead. subst hd.
  destruct (_ && _).
  { intros H. injection H as _ <-. now left. }
  destruct (collectBody _ _ _ _) as [[found content] n'] eqn:Hc.
  destruct found; cbn [negb].
  - destruct (decide (firstToken line = str "global")) as [Hg|_].
    + destruct g as [g0|]; [|discriminate].
      destruct (g0 !! _) as [fr|] eqn:Hk; [|discriminate].
      intros H. injection H as _ <-. right. split; [exact Hg|].
      eauto 8.
    + destruct (decide (firstToken line = str "snippet")) as [_|_];
        intros H; injection H as _ <-; now left.
  - intros H. injection H as _ <-. now left.
Qed.

End HandlerInversion.

Section ScanInversion.

Variable filename : jsstring.
Variable all : list jsstring.

(** What a run returns was returned by the handler on the first line that
    is not plain, with a counter that has counted the lines before it that
    are not blank. *)
Lemma scan_returned_at st rest res :
  completion (scan filename all st rest) = Returned res ->
  exists pre line rest' g',
    rest = pre ++ line :: rest'
    /\ (forall l, In l pre -> plainLine l)
    /\ trim line <> []
    /\ isDirective (firstToken line) = true
    /\ handleSnippetOrGlobal filename line
         (s_currentLineNumber st + countedLines pre) all (s_pythonGlobals st)
         (s_currentPriority st) (s_actions st) (s_context st)
       = Normal (res, g').
Proof.
  revert st. induction rest as [|l rest IH]; intros st; [discriminate|].
  cbn [scan].
  destruct (decide (trim l = [])) as [Hb|Hnb].
  - intros H. destruct (IH st H) as (pre & line & rest' & g' & -> & Hp & Hn & Hd & Hh).
    exists (l :: pre), line, rest', g'.
    rewrite (countedLines_blank l pre Hb).
    repeat split; try assumption.
    intros x [<-|Hx]; [now left|now apply Hp].
  - destruct (isDirective (firstToken l)) eqn:Hd.
    + destruct (handleSnippetOrGlobal _ _ _ _ _ _ _ _) as [[r g]|e] eqn:E;
        [|discriminate].
      cbn [completion]. intros H. injection H as ->.
      exists [], l, rest, g. change (countedLines []) with 0.
      rewrite Z.add_0_r. repeat split; try assumption. intros x [].
    + intros H.
      destruct (IH _ H) as (pre & line & rest' & g' & -> & Hp & Hn & Hd' & Hh).
      cbn [s_currentLineNumber s_pythonGlobals s_currentPriority s_actions
             s_context] in Hh.
      exists (l :: pre), line, rest', g'.
      rewrite (countedLines_counted l pre Hnb).
      replace (s_currentLineNumber st + (countedLines pre + 1))
        with (s_currentLineNumber st + 1 + countedLines pre) by lia.
      repeat split; try assumption.
      intros x [<-|Hx]; [|now apply Hp].
      right. unfold isDirective in Hd. apply orb_false_iff in Hd.
      destruct Hd as [H1 H2].
      apply bool_decide_eq_false_1 in H1. apply bool_decide_eq_false_1 in H2.
      now split.
Qed.

End ScanInversion.

(** ** Descriptions *)

Section DescriptionFacts.

Lemma lastIndexOf_from_last c a d i acc :
  ~ In c d -> lastIndexOf_from c (a ++ c :: d) i acc = i + len a.
Proof.
  intros Hd. revert i acc. induction a as [|x a IH]; intros i acc.
  - cbn [app lastIndexOf_from]. rewrite N.eqb_refl.
    rewrite lastIndexOf_from_absent by exact Hd. change (len []) with 0. lia.
  - cbn [app lastIndexOf_from]. rewrite IH, len_cons. lia.
Qed.

Lemma substring_prefix (a b : jsstring) : substring (a ++ b) 0 (len a) = a.
Proof.
  unfold substring. rewrite len_app.
  pose proof (len_nonneg a). pose proof (len_nonneg b).
  replace (Z.max 0 (Z.min 0 (len a + len b))) with 0 by lia.
  replace (Z.max 0 (Z.min (len a) (len a + len b))) with (len a) by lia.
  replace (Z.min 0 (len a)) with 0 by lia.
  replace (Z.max 0 (len a)) with (len a) by lia.
  change (Z.to_nat 0) with 0%nat. rewrite skipn_O, Z.sub_0_r.
  unfold len. rewrite Nat2Z.id.
  rewrite firstn_app, Nat.sub_diag, firstn_all. simpl. apply app_nil_r.
Qed.

Lemma substring_suffix (a b : jsstring) : substring_from (a ++ b) (len a) = b.
Proof.
  unfold substring_from, substring. rewrite len_app.
  pose proof (len_nonneg a). pose proof (len_nonneg b).
  replace (Z.max 0 (Z.min (len a) (len a + len b))) with (len a) by lia.
  replace (Z.max 0 (Z.min (len a + len b) (len a + len b)))
    with (len a + len b) by lia.
  replace (Z.min (len a) (len a + len b)) with (len a) by lia.
  replace (Z.max (len a) (len a + len b)) with (len a + len b) by lia.
  replace (len a + len b - len a) with (len b) by lia.
  unfold len. rewrite !Nat2Z.id.
  rewrite skipn_app, Nat.sub_diag, skipn_all. simpl. apply firstn_all.
Qed.

(** A quoted word glued to a second quoted word: the second one, with its
    quotes, is the description and the first one the trigger candidate. *)
Lemma headerOfTail_glued head t d ctx :
  ~ In space t -> ~ In quote t -> ~ In space d -> ~ In quote d ->
  headerOfTail head (quoted t ++ quoted d) ctx
  = mkHeader head [] ctx (quoted d) (quoted t).
Proof.
  intros Hts Htq Hds Hdq.
  assert (Hsp : ~ In space (quoted t ++ quoted d)).
  { intros Hin. apply in_app_or in Hin.
    destruct Hin as [Hin|Hin]; revert Hin; now apply quoted_no_space. }
  rewrite headerOfTail_no_space by exact Hsp.
  assert (Hshape : quoted t ++ quoted d
                   = quote :: (t ++ [quote] ++ quote :: d) ++ [quote]).
  { unfold quoted. cbn [app]. now rewrite <- !app_assoc. }
  assert (Ht : trim (quoted t ++ quoted d) = quoted t ++ quoted d).
  { rewrite Hshape. apply trim_keep; reflexivity. }
  cbv zeta. rewrite Ht.
  assert (Hlen : (1 <? len (quoted t ++ quoted d)) = true).
  { rewrite len_app, !len_quoted. pose proof (len_nonneg t).
    pose proof (len_nonneg d). apply Z.ltb_lt. lia. }
  rewrite Hlen.
  assert (He : endsWith quote (quoted t ++ quoted d) = true).
  { rewrite Hshape.
    change (quote :: (t ++ [quote] ++ quote :: d) ++ [quote])
      with ((quote :: (t ++ [quote] ++ quote :: d)) ++ [quote]).
    rewrite endsWith_snoc. reflexivity. }
  rewrite He.
  assert (Hl : lastIndexOf quote
                 (substring (quoted t ++ quoted d) 0
                    (len (quoted t ++ quoted d) - 1)) = len (quoted t)).
  { assert (Hs2 : quoted t ++ quoted d = (quoted t ++ quote :: d) ++ [quote]).
    { unfold quoted. cbn [app]. now rewrite <- !app_assoc. }
    rewrite Hs2 at 1 2. rewrite substring_drop_last.
    unfold lastIndexOf. rewrite lastIndexOf_from_last by exact Hdq. lia. }
  rewrite Hl.
  assert (Hpos : negb ((len (quoted t) =? -1) || (len (quoted t) =? 0)) = true).
  { rewrite len_quoted. pose proof (len_nonneg t).
    destruct (Z.eqb_spec (len t + 2) (-1)); [lia|].
    destruct (Z.eqb_spec (len t + 2) 0); [lia|]. reflexivity. }
  cbn [andb]. rewrite Hpos.
  rewrite substring_suffix, substring_prefix.
  assert (Htt : trim (quoted t) = quoted t) by (apply trim_keep; reflexivity).
  now rewrite Htt.
Qed.

End DescriptionFacts.

(** ** Loading *)

(** A suffix test that succeeds exhibits the rest of the string. *)
Lemma endsWithString_iff suffix s :
  endsWithString suffix s = true <-> exists x, s = x ++ suffix.
Proof.
  unfold endsWithString. rewrite bool_decide_eq_true. split.
  - set (n := (List.length s - List.length suffix)%nat). intros H.
    exists (firstn n s). rewrite <- H. symmetry. apply firstn_skipn.
  - intros [x ->]. rewrite length_app.
    replace (List.length x + List.length suffix - List.length suffix)%nat
      with (List.length x + 0)%nat by lia.
    rewrite skipn_app, Nat.add_0_r, skipn_all.
    replace (List.length x - List.length x)%nat with 0%nat by lia.
    reflexivity.
Qed.

Lemma stem_snippets x : x <> [] -> stem (x ++ str ".snippets") = Some x.
Proof.
  induction x as [|c x IH]; [congruence|]. intros _.
  destruct x as [|c' x].
  - reflexivity.
  - cbn [app stem] in IH |- *. rewrite IH by discriminate. reflexivity.
Qed.

Lemma existsb_app_lit (x : jsstring) :
  existsb isLineTerminator (x ++ str ".snippets") = existsb isLineTerminator x.
Proof. rewrite existsb_app. change (existsb _ (str ".snippets")) with false. apply orb_false_r. Qed.

(** What a parse that does not raise contributes to the catalogue. *)
Lemma loadFile_normal path raw records :
  loadFile path raw = Normal records -> records = [].
Proof.
  unfold loadFile, spread, parseSnippets.
  rewrite scan_yields_nothing.
  destruct (completion _); intros H; try discriminate; now injection H as <-.
Qed.

Lemma loadFile_cases path raw :
  loadFile path raw = Normal [] \/ loadFile path raw = Throw TypeError.
Proof.
  destruct (loadFile path raw) as [records|[]] eqn:E; [left|now right].
  now rewrite (loadFile_normal path raw records E).
Qed.

Section LoadingFacts.

Variable snippetDir : jsstring.
Variable pathJoin : jsstring -> jsstring -> jsstring.
Variable readFileSync : jsstring -> jsstring.

Lemma loadEntries_normal fs entries :
  loadEntries snippetDir pathJoin readFileSync fs = Normal entries ->
  entries = List.map (fun f => (groupName f, [])) fs.
Proof.
  revert entries. induction fs as [|f fs IH]; intros entries H.
  - cbn in H. now injection H as <-.
  - cbn [loadEntries] in H.
    destruct (loadFile _ _) as [records|e] eqn:E; [|discriminate].
    destruct (loadEntries _ _ _ fs) as [es|e]; [|discriminate].
    injection H as <-. rewrite (loadFile_normal _ _ _ E), (IH es eq_refl).
    reflexivity.
Qed.

Lemma loadEntries_throw fs :
  loadEntries snippetDir pathJoin readFileSync fs = Throw TypeError <->
  exists f, In f fs
    /\ loadFile (pathJoin snippetDir f) (readFileSync (pathJoin snippetDir f))
       = Throw TypeError.
Proof.
  induction fs as [|f fs IH].
  - split; [discriminate|intros (f & [] & _)].
  - cbn [loadEntries].
    destruct (loadFile _ _) as [records|[]] eqn:E.
    + destruct (loadEntries _ _ _ fs) as [es|[]].
      * split; [discriminate|]. intros (f' & [<-|Hin] & Hf); [congruence|].
        destruct IH as [_ IH]. discriminate IH. eauto.
      * split; [|reflexivity]. intros _.
        destruct IH as [IH _]. destruct (IH eq_refl) as (f' & Hin & Hf).
        exists f'. split; [now right|exact Hf].
    + split; [|reflexivity]. intros _. exists f. split; [now left|exact E].
Qed.

End LoadingFacts.

(** Lookups in the object built from entries. *)
Lemma fromEntries_lookup {A} (entries : list (jsstring * A))
    (m0 : gmap (list N) A) k v :
  fold_left (fun m kv => <[fst kv := snd kv]> m) entries m0 !! k = Some v ->
  In (k, v) entries \/ m0 !! k = Some v.
Proof.
  revert m0. induction entries as [|[k' v'] entries IH]; intros m0 H.
  - now right.
  - cbn [fold_left fst snd] in H. destruct (IH _ H) as [Hin|Hl].
    + left. now right.
    + destruct (decide (k' = k)) as [->|Hne].
      * rewrite lookup_insert_eq in Hl. injection Hl as ->. left. now left.
      * rewrite lookup_insert_ne in Hl by exact Hne. now right.
Qed.

Lemma fromEntries_dom {A} (entries : list (jsstring * A)) (m0 : gmap (list N) A) k :
  is_Some (fold_left (fun m kv => <[fst kv := snd kv]> m) entries m0 !! k) <->
  In k (List.map fst entries) \/ is_Some (m0 !! k).
Proof.
  revert m0. induction entries as [|[k' v'] entries IH]; intros m0.
  - cbn. tauto.
  - cbn [fold_left List.map fst snd In]. rewrite IH.
    destruct (decide (k' = k)) as [->|Hne].
    + rewrite lookup_insert_eq. split; [auto|]. intros _. right. eauto.
    + rewrite lookup_insert_ne by exact Hne. tauto.
Qed.

Lemma fold_add_zero (zs : list Z) acc :
  (forall z, In z zs -> z = 0) -> fold_left Z.add zs acc = acc.
Proof.
  revert acc. induction zs as [|z zs IH]; intros acc H; [reflexivity|].
  cbn [fold_left]. rewrite (H z (or_introl eq_refl)), Z.add_0_r.
  apply IH. intros z' Hz. apply H. now right.
Qed.

Lemma count_of_empty_groups (m : gmap (list N) (list SnippetDefinition)) :
  (forall k v, m !! k = Some v -> v = []) ->
  loadedSnippetsCount (Some m) = Normal 0.
Proof.
  intros H. unfold loadedSnippetsCount. f_equal. apply fold_add_zero.
  intros z Hz. apply in_map_iff in Hz. destruct Hz as ([k v] & <- & Hin).
  apply list_elem_of_In, elem_of_map_to_list in Hin.
  rewrite (H k v Hin). reflexivity.
Qed.

(** ** Further behaviour of the scanner and of the file scan *)

Lemma split_first_prefix sep s p ps :
  split sep s = p :: ps -> exists w, s = p ++ w.
Proof.
  revert p ps. induction s as [|c s IH]; intros p ps H.
  - cbn in H. injection H as <- <-. now exists [].
  - cbn [split] in H. destruct (N.eqb c sep).
    + injection H as <- <-. now exists (c :: s).
    + destruct (split sep s) as [|w ws] eqn:E; [now apply split_nonempty in E|].
      injection H as <- <-. destruct (IH w ws eq_refl) as [x ->].
      now exists x.
Qed.

(** A line whose first token is [snippet] or [global] is not blank. *)
Lemma directive_not_blank line :
  firstToken line = str "snippet" \/ firstToken line = str "global" ->
  trim line <> [].
Proof.
  intros H. unfold firstToken, headTail, split_limit in H.
  destruct (split space line) as [|p ps] eqn:E; [now apply split_nonempty in E|].
  destruct (split_first_prefix space line p ps E) as [w ->].
  cbn in H. destruct H as [-> | ->].
  - apply (trim_not_blank 115%N). reflexivity.
  - apply (trim_not_blank 103%N). reflexivity.
Qed.

(** X1.  Splitting a text into lines loses nothing: there is at least one
    line, no line contains a newline, and joining the lines with newlines
    gives the text back. *)
Theorem lines_round_trip :
  forall raw,
    split newline raw <> []
    /\ (forall l, In l (split newline raw) -> ~ In newline l)
    /\ unlines (split newline raw) = raw.
Proof.
  intros raw. split; [apply split_nonempty|]. split.
  - intros l. apply split_pieces_no_sep.
  - apply unlines_split.
Qed.

(** X2.  A non-empty list of lines without newlines is what the split of
    their join gives back, so every such list is the line sequence of some
    file. *)
Theorem lines_of_unlines :
  forall ls,
    ls <> [] -> (forall l, In l ls -> ~ In newline l) ->
    split newline (unlines ls) = ls.
Proof. intros ls Hne H. now apply split_unlines. Qed.

Lemma lines_of_unlines_witness :
  let ls := [str "snippet a"; []; str "endsnippet"] in
  (ls <> [] /\ forall l, In l ls -> ~ In newline l)
  /\ split newline (unlines ls) = ls.
Proof.
  intros ls.
  assert (H1 : ls <> []) by discriminate.
  assert (H2 : forall l, In l ls -> ~ In newline l).
  { intros l [<-|[<-|[<-|[]]]]; absent_in_literal. }
  split; [auto|]. exact (lines_of_unlines ls H1 H2).
Defined.

(** X3.  The first line whose first token is [snippet] or [global] decides
    the run: the generator ends with what the handler does on that line,
    called with all the lines of the file, a [null] accumulator, priority 0
    and a counter equal to the number of lines before it that are not
    blank. *)
Theorem first_block_decides :
  forall filename raw pre line rest,
    split newline raw = pre ++ line :: rest ->
    (forall l, In l pre -> plainLine l) ->
    firstToken line = str "snippet" \/ firstToken line = str "global" ->
    parseSnippets filename raw =
      match handleSnippetOrGlobal filename line (countedLines pre)
              (split newline raw) None 0 ∅ None with
      | Throw e => mkGenerator [] (Raised e)
      | Normal (snippet, _) => mkGenerator [] (Returned snippet)
      end.
Proof.
  intros filename raw pre line rest Hsplit Hpre Hd.
  unfold parseSnippets.
  pose proof (scan_skip_counted filename (split newline raw) initialState pre
                (line :: rest) Hpre) as Hs.
  rewrite <- Hsplit in Hs. rewrite Hs.
  rewrite scan_directive;
    [reflexivity|now apply directive_not_blank|now apply isDirective_true].
Qed.

Lemma first_block_decides_witness :
  let raw := unlines [[]; str "# python"; []; str "snippet a"; str "x";
                      str "endsnippet"] in
  let pre := [[]; str "# python"; []] in
  (split newline raw = pre ++ str "snippet a" :: [str "x"; str "endsnippet"]
   /\ (forall l, In l pre -> plainLine l)
   /\ (firstToken (str "snippet a") = str "snippet"
       \/ firstToken (str "snippet a") = str "global"))
  /\ exists r, completion (parseSnippets pythonFile raw) = Returned (SnippetResult r)
               /\ location r = str "python.snippets:1".
Proof.
  intros raw pre.
  assert (H1 : split newline raw
               = pre ++ str "snippet a" :: [str "x"; str "endsnippet"])
    by reflexivity.
  assert (H2 : forall l, In l pre -> plainLine l).
  { intros l [<-|[<-|[<-|[]]]]; plain_line. }
  assert (H3 : firstToken (str "snippet a") = str "snippet"
               \/ firstToken (str "snippet a") = str "global")
    by (left; reflexivity).
  split; [auto|].
  rewrite (first_block_decides pythonFile raw pre (str "snippet a")
             [str "x"; str "endsnippet"] H1 H2 H3).
  eexists. split; reflexivity.
Defined.

(** X4.  The generator runs to the end of its body exactly when no line of
    the file opens a block; otherwise it returns or raises at the first
    line that does. *)
Theorem runs_to_end_iff_plain :
  forall filename raw,
    completion (parseSnippets filename raw) = Done
    <-> (forall l, In l (split newline raw) -> plainLine l).
Proof.
  intros filename raw. unfold parseSnippets. split.
  - apply scan_done_plain.
  - intros H. now rewrite scan_plain_lines.
Qed.

(** X5.  A line that is the bare keyword [snippet] or [global], when it is
    the first line that opens a block, makes the generator raise: the
    header has no tail to split. *)
Theorem lone_keyword_raises :
  forall filename raw pre line rest,
    split newline raw = pre ++ line :: rest ->
    (forall l, In l pre -> plainLine l) ->
    line = str "snippet" \/ line = str "global" ->
    parseSnippets filename raw = mkGenerator [] (Raised TypeError)
    /\ loadFile filename raw = Throw TypeError.
Proof.
  intros filename raw pre line rest Hsplit Hpre Hl.
  assert (Hrun : parseSnippets filename raw = mkGenerator [] (Raised TypeError)).
  { unfold parseSnippets.
    pose proof (scan_skip_counted filename (split newline raw) initialState pre
                  (line :: rest) Hpre) as Hs.
    rewrite <- Hsplit in Hs. rewrite Hs.
    assert (Hns : ~ In space line) by (destruct Hl as [-> | ->]; absent_in_literal).
    rewrite scan_directive.
    - unfold handleSnippetOrGlobal.
      now rewrite (headerFields_no_space line _ Hns).
    - apply directive_not_blank. unfold firstToken.
      rewrite (headTail_no_space line Hns). exact Hl.
    - apply isDirective_true. unfold firstToken.
      rewrite (headTail_no_space line Hns). exact Hl. }
  split; [exact Hrun|]. unfold loadFile. now rewrite Hrun.
Qed.

Lemma lone_keyword_raises_witness :
  let raw := unlines [str "# python"; str "snippet"; str "for"; str "endsnippet"] in
  (split newline raw = [str "# python"] ++ str "snippet" :: [str "for"; str "endsnippet"]
   /\ (forall l, In l [str "# python"] -> plainLine l)
   /\ (str "snippet" = str "snippet" \/ str "snippet" = str "global"))
  /\ parseSnippets pythonFile raw = mkGenerator [] (Raised TypeError)
  /\ loadFile pythonFile raw = Throw TypeError.
Proof.
  intros raw.
  assert (H1 : split newline raw = [str "# python"] ++ str "snippet"
                                     :: [str "for"; str "endsnippet"])
    by reflexivity.
  assert (H2 : forall l, In l [str "# python"] -> plainLine l).
  { intros l [<-|[]]; plain_line. }
  assert (H3 : str "snippet" = str "snippet" \/ str "snippet" = str "global")
    by (left; reflexivity).
  split; [auto|].
  exact (lone_keyword_raises pythonFile raw [str "# python"] (str "snippet")
           [str "for"; str "endsnippet"] H1 H2 H3).
Defined.

(** ** Further behaviour of the handler *)

(** X6.  On the header [snippet "t"] with an end marker among the lines,
    the handler returns a record whose trigger is [t] without its quotes
    and whose body is made of the lines that precede the first end marker
    in [lines], joined without separator and less their last character; the
    other fields are the arguments of the call, with an empty description
    and an empty option string. *)
Theorem quoted_trigger_record :
  forall filename t n before e after g p a ctx,
    0 <= n <= maxSafeInteger ->
    ~ In space t -> ~ In quote t ->
    (forall l, In l before -> trimEnd l <> str "endsnippet") ->
    trimEnd e = str "endsnippet" ->
    handleSnippetOrGlobal filename (str "snippet " ++ quoted t) n
      (before ++ e :: after) g p a ctx
    = Normal (SnippetResult
                (mkSnippetDefinition p t (chomp (concat before)) [] [] g
                   (filename ++ str ":" ++ number_to_string n) ctx a),
              g).
Proof.
  intros filename t n before e after g p a ctx _ Hs Hq Hb He.
  assert (Hh : headerFields (str "snippet " ++ quoted t) ctx
               = Normal (mkHeader (str "snippet") [] ctx [] (quoted t))).
  { change (str "snippet " ++ quoted t) with (str "snippet" ++ space :: quoted t).
    rewrite (headerFields_after_space (str "snippet") (quoted t) (quoted t) []);
      [|absent_in_literal|now apply split_no_sep, quoted_no_space].
    now rewrite headerOfTail_quoted. }
  assert (Hlen : (1 <? len (quoted t)) = true).
  { rewrite len_quoted. pose proof (len_nonneg t). apply Z.ltb_lt. lia. }
  assert (Hd : opt_neq (at_first (quoted t)) (at_last (quoted t)) = false).
  { unfold quoted at 2. change (quote :: t ++ [quote]) with ((quote :: t) ++ [quote]).
    now rewrite at_last_snoc. }
  rewrite (handle_snippet_found filename _ n before e after g p a ctx
             [] ctx [] (quoted t) Hh); [|now rewrite Hlen, Hd|exact Hb|exact He].
  rewrite Hlen. cbn [orb].
  assert (Hsub : substring (quoted t) 1 (len (quoted t) - 1) = t)
    by apply substring_strip.
  now rewrite Hsub.
Qed.

Lemma quoted_trigger_record_witness :
  let before := [str "for x in y:"; str "  pass"] in
  (0 <= 7 <= maxSafeInteger
   /\ ~ In space (str "for") /\ ~ In quote (str "for")
   /\ (forall l, In l before -> trimEnd l <> str "endsnippet")
   /\ trimEnd (str "endsnippet  ") = str "endsnippet")
  /\ handleSnippetOrGlobal pythonFile (str "snippet " ++ quoted (str "for")) 7
       (before ++ str "endsnippet  " :: [str "more"]) None 3 ∅ None
     = Normal (SnippetResult
                 (mkSnippetDefinition 3 (str "for") (str "for x in y:  pas") [] []
                    None (str "python.snippets:7") None ∅),
               None).
Proof.
  intros before.
  assert (H0 : 0 <= 7 <= maxSafeInteger) by (unfold maxSafeInteger; lia).
  assert (H1 : ~ In space (str "for")) by absent_in_literal.
  assert (H2 : ~ In quote (str "for")) by absent_in_literal.
  assert (H3 : forall l, In l before -> trimEnd l <> str "endsnippet").
  { intros l [<-|[<-|[]]]; intros E; vm_compute in E; discriminate E. }
  assert (H4 : trimEnd (str "endsnippet  ") = str "endsnippet") by reflexivity.
  split; [auto|].
  exact (quoted_trigger_record pythonFile (str "for") 7 before (str "endsnippet  ")
           [str "more"] None 3 ∅ None H0 H1 H2 H3 H4).
Defined.

(** X7.  A trigger of one character that is not white space is taken as it
    is, without delimiters: on [snippet c] the record has trigger [c]. *)
Theorem single_character_trigger_record :
  forall filename c n before e after g p a ctx,
    0 <= n <= maxSafeInteger ->
    isWhiteSpace c = false ->
    (forall l, In l before -> trimEnd l <> str "endsnippet") ->
    trimEnd e = str "endsnippet" ->
    handleSnippetOrGlobal filename (str "snippet " ++ [c]) n
      (before ++ e :: after) g p a ctx
    = Normal (SnippetResult
                (mkSnippetDefinition p [c] (chomp (concat before)) [] [] g
                   (filename ++ str ":" ++ number_to_string n) ctx a),
              g).
Proof.
  intros filename c n before e after g p a ctx _ Hc Hb He.
  assert (Hsp : ~ In space [c]).
  { intros [E|[]]. subst c. discriminate Hc. }
  assert (Hh : headerFields (str "snippet " ++ [c]) ctx
               = Normal (mkHeader (str "snippet") [] ctx [] [c])).
  { change (str "snippet " ++ [c]) with (str "snippet" ++ space :: [c]).
    rewrite (headerFields_after_space (str "snippet") [c] [c] []);
      [|absent_in_literal|now apply split_no_sep].
    rewrite headerOfTail_short; [|exact Hsp|cbv; discriminate].
    now rewrite !(trim_single c Hc). }
  rewrite (handle_snippet_found filename _ n before e after g p a ctx
             [] ctx [] [c] Hh); [reflexivity|reflexivity|exact Hb|exact He].
Qed.

Lemma single_character_trigger_record_witness :
  (0 <= 0 <= maxSafeInteger
   /\ isWhiteSpace 120%N = false
   /\ (forall l, In l [str "snippet x"; str "times"] -> trimEnd l <> str "endsnippet")
   /\ trimEnd (str "endsnippet") = str "endsnippet")
  /\ handleSnippetOrGlobal pythonFile (str "snippet x") 0
       ([str "snippet x"; str "times"] ++ str "endsnippet" :: []) None 0 ∅ None
     = Normal (SnippetResult
                 (mkSnippetDefinition 0 (str "x") (str "snippet xtime") [] []
                    None (str "python.snippets:0") None ∅),
               None).
Proof.
  assert (H0 : 0 <= 0 <= maxSafeInteger) by (unfold maxSafeInteger; lia).
  assert (H1 : isWhiteSpace 120%N = false) by reflexivity.
  assert (H2 : forall l, In l [str "snippet x"; str "times"] ->
                         trimEnd l <> str "endsnippet").
  { intros l [<-|[<-|[]]]; intros E; vm_compute in E; discriminate E. }
  assert (H3 : trimEnd (str "endsnippet") = str "endsnippet") by reflexivity.
  split; [auto|].
  exact (single_character_trigger_record pythonFile 120%N 0
           [str "snippet x"; str "times"] (str "endsnippet") [] None 0 ∅ None
           H0 H1 H2 H3).
Defined.

(** X8.  A description is recognised when it is glued to the trigger: on
    the header made of [snippet], a space, the quoted word [t] and, with no
    space in between, the quoted word [d], the record has trigger [t] and
    for description [d] between its quotes. *)
Theorem glued_description_record :
  forall filename t d n before e after g p a ctx,
    0 <= n <= maxSafeInteger ->
    ~ In space t -> ~ In quote t -> ~ In space d -> ~ In quote d ->
    (forall l, In l before -> trimEnd l <> str "endsnippet") ->
    trimEnd e = str "endsnippet" ->
    handleSnippetOrGlobal filename (str "snippet " ++ quoted t ++ quoted d) n
      (before ++ e :: after) g p a ctx
    = Normal (SnippetResult
                (mkSnippetDefinition p t (chomp (concat before)) (quoted d) [] g
                   (filename ++ str ":" ++ number_to_string n) ctx a),
              g).
Proof.
  intros filename t d n before e after g p a ctx _ Hts Htq Hds Hdq Hb He.
  assert (Hsp : ~ In space (quoted t ++ quoted d)).
  { intros Hin. apply in_app_or in Hin.
    destruct Hin as [Hin|Hin]; revert Hin; now apply quoted_no_space. }
  assert (Hh : headerFields (str "snippet " ++ quoted t ++ quoted d) ctx
               = Normal (mkHeader (str "snippet") [] ctx (quoted d) (quoted t))).
  { change (str "snippet " ++ quoted t ++ quoted d)
      with (str "snippet" ++ space :: (quoted t ++ quoted d)).
    rewrite (headerFields_after_space (str "snippet") (quoted t ++ quoted d)
               (quoted t ++ quoted d) []);
      [|absent_in_literal|now apply split_no_sep].
    now rewrite headerOfTail_glued. }
  assert (Hlen : (1 <? len (quoted t)) = true).
  { rewrite len_quoted. pose proof (len_nonneg t). apply Z.ltb_lt. lia. }
  assert (Hd : opt_neq (at_first (quoted t)) (at_last (quoted t)) = false).
  { unfold quoted at 2. change (quote :: t ++ [quote]) with ((quote :: t) ++ [quote]).
    now rewrite at_last_snoc. }
  rewrite (handle_snippet_found filename _ n before e after g p a ctx
             [] ctx (quoted d) (quoted t) Hh);
    [|now rewrite Hlen, Hd|exact Hb|exact He].
  rewrite Hlen. cbn [orb].
  assert (Hsub : substring (quoted t) 1 (len (quoted t) - 1) = t)
    by apply substring_strip.
  now rewrite Hsub.
Qed.

Lemma glued_description_record_witness :
  (0 <= 0 <= maxSafeInteger
   /\ ~ In space (str "for") /\ ~ In quote (str "for")
   /\ ~ In space (str "loop") /\ ~ In quote (str "loop")
   /\ (forall l, In l [str "pass"] -> trimEnd l <> str "endsnippet")
   /\ trimEnd (str "endsnippet") = str "endsnippet")
  /\ handleSnippetOrGlobal pythonFile
       (str "snippet " ++ quoted (str "for") ++ quoted (str "loop")) 0
       ([str "pass"] ++ str "endsnippet" :: []) None 0 ∅ None
     = Normal (SnippetResult
                 (mkSnippetDefinition 0 (str "for") (str "pas")
                    (quoted (str "loop")) [] None (str "python.snippets:0")
                    None ∅),
               None).
Proof.
  assert (H0 : 0 <= 0 <= maxSafeInteger) by (unfold maxSafeInteger; lia).
  assert (H1 : ~ In space (str "for")) by absent_in_literal.
  assert (H2 : ~ In quote (str "for")) by absent_in_literal.
  assert (H3 : ~ In space (str "loop")) by absent_in_literal.
  assert (H4 : ~ In quote (str "loop")) by absent_in_literal.
  assert (H5 : forall l, In l [str "pass"] -> trimEnd l <> str "endsnippet").
  { intros l [<-|[]]; intros E; vm_compute in E; discriminate E. }
  assert (H6 : trimEnd (str "endsnippet") = str "endsnippet") by reflexivity.
  split; [tauto|].
  exact (glued_description_record pythonFile (str "for") (str "loop") 0
           [str "pass"] (str "endsnippet") [] None 0 ∅ None
           H0 H1 H2 H3 H4 H5 H6).
Defined.

(** X9.  Whenever the handler returns a record, the header's first token is
    [snippet], the body is made of the lines before the first end marker
    (joined, less the last character), the option string is empty, and
    priority, context, actions, accumulator and location are those of the
    call; the accumulator is left as it was. *)
Theorem handler_record_read_back :
  forall filename line n lines g p a ctx r g',
    0 <= n <= maxSafeInteger ->
    handleSnippetOrGlobal filename line n lines g p a ctx
      = Normal (SnippetResult r, g') ->
    firstToken line = str "snippet"
    /\ (exists before e after,
          lines = before ++ e :: after
          /\ (forall l, In l before -> trimEnd l <> str "endsnippet")
          /\ trimEnd e = str "endsnippet"
          /\ value r = chomp (concat before))
    /\ priority r = p /\ options r = [] /\ context r = ctx /\ actions r = a
    /\ globals r = g /\ g' = g
    /\ location r = filename ++ str ":" ++ number_to_string n.
Proof.
  intros filename line n lines g p a ctx r g' _ H.
  exact (handle_record_inv filename line n lines g p a ctx r g' H).
Qed.

Lemma handler_record_read_back_witness :
  let r := mkSnippetDefinition 2 (str "x") (str "on") [] [] None
             (str "python.snippets:4") (Some (str "ctx")) ∅ in
  (0 <= 4 <= maxSafeInteger
   /\ handleSnippetOrGlobal pythonFile (str "snippet x") 4
        [str "one"; str "endsnippet"] None 2 ∅ (Some (str "ctx"))
      = Normal (SnippetResult r, None))
  /\ firstToken (str "snippet x") = str "snippet"
  /\ options r = [] /\ context r = Some (str "ctx").
Proof.
  intros r.
  assert (H : handleSnippetOrGlobal pythonFile (str "snippet x") 4
                [str "one"; str "endsnippet"] None 2 ∅ (Some (str "ctx"))
              = Normal (SnippetResult r, None)) by reflexivity.
  assert (H0 : 0 <= 4 <= maxSafeInteger) by (unfold maxSafeInteger; lia).
  split; [auto|].
  pose proof (handler_record_read_back pythonFile (str "snippet x") 4
                [str "one"; str "endsnippet"] None 2 ∅ (Some (str "ctx")) r None
                H0 H)
    as (H1 & _ & _ & H2 & H3 & _).
  auto.
Defined.

(** X10.  The handler changes the accumulator in one way only: on a header
    whose first token is [global], it appends one fragment to the array of
    a key that the object already has.  It never creates a key, and [null]
    stays [null]. *)
Theorem handler_accumulator_change :
  forall filename line n lines g p a ctx r g',
    handleSnippetOrGlobal filename line n lines g p a ctx = Normal (r, g') ->
    g' = g
    \/ (firstToken line = str "global"
        /\ exists g0 key fragments content,
             g = Some g0 /\ g0 !! key = Some fragments
             /\ g' = Some (<[key := fragments ++ [content]]> g0)).
Proof.
  intros filename line n lines g p a ctx r g' H.
  exact (handle_accumulator filename line n lines g p a ctx r g' H).
Qed.

Lemma handler_accumulator_change_witness :
  let g0 : gmap (list N) (list (list N)) := {[ str "g" := [str "import os"] ]} in
  let g1 : gmap (list N) (list (list N)) :=
    <[ str "g" := [str "import os"; str "import r"] ]> g0 in
  let r := ErrorResult (str "Invalid snippet type: 'global'") 1 in
  handleSnippetOrGlobal pythonFile (str "global g") 0
    [str "import re"; str "endglobal"] (Some g0) 0 ∅ None = Normal (r, Some g1)
  /\ (Some g1 = Some g0
      \/ (firstToken (str "global g") = str "global"
          /\ exists g key fragments content,
               Some g0 = Some g /\ g !! key = Some fragments
               /\ Some g1 = Some (<[key := fragments ++ [content]]> g))).
Proof.
  intros g0 g1 r.
  assert (H : handleSnippetOrGlobal pythonFile (str "global g") 0
                [str "import re"; str "endglobal"] (Some g0) 0 ∅ None
              = Normal (r, Some g1)) by reflexivity.
  split; [exact H|].
  exact (handler_accumulator_change pythonFile (str "global g") 0
           [str "import re"; str "endglobal"] (Some g0) 0 ∅ None r (Some g1) H).
Defined.

(** X11.  On [global k] with an accumulator object and an end marker among
    the lines: when the object has the key [k], the body is appended to its
    fragments and the handler still returns the error
    [Invalid snippet type: 'global'], at the counter of the end marker; when
    the object lacks the key, the handler raises. *)
Theorem global_with_accumulator :
  forall filename k n before e after (g0 : gmap (list N) (list (list N))) p a ctx,
    isWhiteSpace k = false ->
    (forall l, In l before -> trimEnd l <> str "endglobal") ->
    trimEnd e = str "endglobal" ->
    handleSnippetOrGlobal filename (str "global " ++ [k]) n
      (before ++ e :: after) (Some g0) p a ctx
    = match g0 !! [k] with
      | Some fragments =>
          Normal (ErrorResult (str "Invalid snippet type: 'global'")
                    (n + Z.of_nat (List.length before)),
                  Some (<[[k] := fragments ++ [chomp (concat before)]]> g0))
      | None => Throw TypeError
      end.
Proof.
  intros filename k n before e after g0 p a ctx Hk Hb He.
  assert (Hsp : ~ In space [k]).
  { intros [E|[]]. subst k. discriminate Hk. }
  unfold handleSnippetOrGlobal.
  change (str "global " ++ [k]) with (str "global" ++ space :: [k]).
  rewrite (headerFields_after_space (str "global") [k] [k] []);
    [|absent_in_literal|now apply split_no_sep].
  rewrite headerOfTail_short; [|exact Hsp|cbv; discriminate].
  rewrite !(trim_single k Hk).
  change (1 <? len [k]) with false. cbn [includes existsb orb andb].
  change (str "end" ++ str "global") with (str "endglobal").
  rewrite (collectBody_found _ before e after [] n Hb He).
  cbn [negb app].
  destruct (decide (str "global" = str "global")) as [_|E]; [|now destruct E].
  destruct (g0 !! [k]); reflexivity.
Qed.

Lemma global_with_accumulator_witness :
  let g0 : gmap (list N) (list (list N)) := {[ str "g" := [] ]} in
  (isWhiteSpace 103%N = false
   /\ (forall l, In l [str "import re"] -> trimEnd l <> str "endglobal")
   /\ trimEnd (str "endglobal") = str "endglobal")
  /\ handleSnippetOrGlobal pythonFile (str "global g") 0
       ([str "import re"] ++ str "endglobal" :: []) (Some g0) 0 ∅ None
     = Normal (ErrorResult (str "Invalid snippet type: 'global'") 1,
               Some (<[ str "g" := [str "import r"] ]> g0))
  /\ handleSnippetOrGlobal pythonFile (str "global g") 0
       ([str "import re"] ++ str "endglobal" :: []) (Some ∅) 0 ∅ None
     = Throw TypeError.
Proof.
  intros g0.
  assert (H1 : isWhiteSpace 103%N = false) by reflexivity.
  assert (H2 : forall l, In l [str "import re"] -> trimEnd l <> str "endglobal").
  { intros l [<-|[]]; intros E; vm_compute in E; discriminate E. }
  assert (H3 : trimEnd (str "endglobal") = str "endglobal") by reflexivity.
  split; [auto|]. split.
  - exact (global_with_accumulator pythonFile 103%N 0 [str "import re"]
             (str "endglobal") [] g0 0 ∅ None H1 H2 H3).
  - exact (global_with_accumulator pythonFile 103%N 0 [str "import re"]
             (str "endglobal") [] ∅ 0 ∅ None H1 H2 H3).
Defined.

(** ** Further behaviour of a whole parse *)

Lemma message_not_snippet_type (m prefix rest : jsstring) h :
  m = prefix ++ rest ->
  firstn 9 prefix = str "Invalid m" \/ firstn 9 prefix = str "Missing '" ->
  List.length prefix = 28%nat \/ List.length prefix = 9%nat ->
  m <> invalidSnippetType h.
Proof.
  intros -> Hp Hl E. apply (f_equal (firstn 9)) in E.
  rewrite firstn_app in E.
  replace (firstn (9 - List.length prefix) rest) with (@nil N) in E
    by (destruct Hl as [-> | ->]; reflexivity).
  rewrite app_nil_r in E.
  change (firstn 9 (invalidSnippetType h)) with (str "Invalid s") in E.
  destruct Hp as [Hp|Hp]; rewrite Hp in E; vm_compute in E; discriminate E.
Qed.

(** X12.  An error returned by the generator is an invalid trigger, at a
    counter equal to the number of non-blank lines before the header, or a
    missing end marker, at that counter plus the number of lines of the
    whole file; the error [Invalid snippet type] never comes out of a
    parse. *)
Theorem parse_error_kinds :
  forall filename raw m k,
    completion (parseSnippets filename raw) = Returned (ErrorResult m k) ->
    (exists pre line rest,
       split newline raw = pre ++ line :: rest
       /\ (forall l, In l pre -> plainLine l)
       /\ (firstToken line = str "snippet" \/ firstToken line = str "global")
       /\ ((exists t, m = invalidMultiwordTrigger t /\ k = countedLines pre)
           \/ (exists t, m = missingEnd (str "end" ++ firstToken line) t
                         /\ k = countedLines pre
                                + Z.of_nat (List.length (split newline raw)))))
    /\ (forall h, m <> invalidSnippetType h).
Proof.
  intros filename raw m k H. unfold parseSnippets in H.
  destruct (scan_returned_at filename _ initialState _ _ H)
    as (pre & line & rest & g' & Hsplit & Hpre & _ & Hd & Hh).
  cbn [initialState s_currentLineNumber s_pythonGlobals s_currentPriority
         s_actions s_context] in Hh.
  rewrite Z.add_0_l in Hh.
  pose proof (isDirective_cases _ Hd) as Hfirst.
  destruct (handle_error_kinds filename line _ _ 0 ∅ None m k g' Hd Hh)
    as [(t & -> & ->)|(t & -> & ->)].
  - split.
    + exists pre, line, rest. split; [assumption|]. split; [assumption|].
      split; [assumption|]. left. eauto.
    + intros h. apply (message_not_snippet_type _
                         (str "Invalid multiword trigger: '") (t ++ str "'") h);
        [reflexivity|now left|now left].
  - split.
    + exists pre, line, rest. split; [assumption|]. split; [assumption|].
      split; [assumption|]. right. eauto.
    + intros h. apply (message_not_snippet_type _ (str "Missing '")
                         ((str "end" ++ firstToken line) ++ str "' for '" ++ t ++ str "'") h);
        [reflexivity|now right|now right].
Qed.

Lemma parse_error_kinds_witness :
  let raw := unlines [str "# python"; str "snippet " ++ quoted (str "t"); str "BODY"] in
  completion (parseSnippets pythonFile raw)
    = Returned (ErrorResult (str "Missing 'endsnippet' for 't'") 4)
  /\ (forall h, str "Missing 'endsnippet' for 't'" <> invalidSnippetType h).
Proof.
  intros raw.
  assert (H : completion (parseSnippets pythonFile raw)
              = Returned (ErrorResult (str "Missing 'endsnippet' for 't'") 4))
    by reflexivity.
  split; [exact H|].
  exact (proj2 (parse_error_kinds pythonFile raw _ 4 H)).
Defined.

(** X13.  A record returned by the generator, read back: the first line
    that opens a block is a [snippet] header; the body is made of the lines
    of the file from the first one up to the first end marker, joined and
    less their last character; the location is the file name, a colon and
    the number of non-blank lines before the header; the accumulator and the
    context are [null], and the actions and the option string are empty. *)
Theorem parse_record_read_back :
  forall filename raw r,
    completion (parseSnippets filename raw) = Returned (SnippetResult r) ->
    (exists pre line rest,
       split newline raw = pre ++ line :: rest
       /\ (forall l, In l pre -> plainLine l)
       /\ firstToken line = str "snippet"
       /\ location r = filename ++ str ":" ++ number_to_string (countedLines pre))
    /\ (exists before e after,
          split newline raw = before ++ e :: after
          /\ (forall l, In l before -> trimEnd l <> str "endsnippet")
          /\ trimEnd e = str "endsnippet"
          /\ value r = chomp (concat before))
    /\ globals r = None /\ context r = None /\ actions r = ∅ /\ options r = [].
Proof.
  intros filename raw r H. unfold parseSnippets in H.
  destruct (scan_returned_at filename _ initialState _ _ H)
    as (pre & line & rest & g' & Hsplit & Hpre & _ & Hd & Hh).
  cbn [initialState s_currentLineNumber s_pythonGlobals s_currentPriority
         s_actions s_context] in Hh.
  rewrite Z.add_0_l in Hh.
  destruct (handle_record_inv filename line _ _ None 0 ∅ None r g' Hh)
    as (Hf & Hbody & _ & Ho & Hc & Ha & Hg & _ & Hloc).
  split; [|split; [exact Hbody|auto]].
  exists pre, line, rest. auto.
Qed.

Lemma parse_record_read_back_witness :
  let raw := unlines [[]; str "endglobal"; str "snippet a"; str "x"; str "endsnippet"] in
  let r := mkSnippetDefinition 0 (str "a") (str "endglobalsnippet a") [] []
             None (str "python.snippets:1") None ∅ in
  completion (parseSnippets pythonFile raw) = Returned (SnippetResult r)
  /\ globals r = None /\ context r = None /\ actions r = ∅ /\ options r = [].
Proof.
  intros raw r.
  assert (H : completion (parseSnippets pythonFile raw) = Returned (SnippetResult r))
    by reflexivity.
  split; [exact H|].
  exact (proj2 (proj2 (parse_record_read_back pythonFile raw r H))).
Defined.

(** X14.  A file whose first block is [snippet "t"], closed by an end
    marker: the generator returns (and does not yield) a record with
    trigger [t] whose body starts at the first line of the file, header and
    earlier lines included, and whose location counts only the non-blank
    lines before the header. *)
Theorem quoted_block_in_file :
  forall filename raw pre t rest before e after,
    split newline raw = pre ++ (str "snippet " ++ quoted t) :: rest ->
    (forall l, In l pre -> plainLine l) ->
    ~ In space t -> ~ In quote t ->
    split newline raw = before ++ e :: after ->
    (forall l, In l before -> trimEnd l <> str "endsnippet") ->
    trimEnd e = str "endsnippet" ->
    parseSnippets filename raw =
      mkGenerator []
        (Returned (SnippetResult
           (mkSnippetDefinition 0 t (chomp (concat before)) [] [] None
              (filename ++ str ":" ++ number_to_string (countedLines pre))
              None ∅))).
Proof.
  intros filename raw pre t rest before e after Hsplit Hpre Hs Hq Hlines Hb He.
  unfold parseSnippets.
  pose proof (scan_skip_counted filename (split newline raw) initialState pre
                ((str "snippet " ++ quoted t) :: rest) Hpre) as Hscan.
  rewrite <- Hsplit in Hscan. rewrite Hscan.
  assert (Hft : firstToken (str "snippet " ++ quoted t) = str "snippet").
  { change (str "snippet " ++ quoted t) with (str "snippet" ++ space :: quoted t).
    now rewrite firstToken_after_space by absent_in_literal. }
  rewrite scan_directive;
    [|apply directive_not_blank; now left|apply isDirective_true; now left].
  cbn [withLineNumber initialState s_currentLineNumber s_pythonGlobals
         s_currentPriority s_actions s_context].
  rewrite Hlines.
  assert (Hh : headerFields (str "snippet " ++ quoted t) None
               = Normal (mkHeader (str "snippet") [] None [] (quoted t))).
  { change (str "snippet " ++ quoted t) with (str "snippet" ++ space :: quoted t).
    rewrite (headerFields_after_space (str "snippet") (quoted t) (quoted t) []);
      [|absent_in_literal|now apply split_no_sep, quoted_no_space].
    now rewrite headerOfTail_quoted. }
  assert (Hlen : (1 <? len (quoted t)) = true).
  { rewrite len_quoted. pose proof (len_nonneg t). apply Z.ltb_lt. lia. }
  assert (Hd : opt_neq (at_first (quoted t)) (at_last (quoted t)) = false).
  { unfold quoted at 2. change (quote :: t ++ [quote]) with ((quote :: t) ++ [quote]).
    now rewrite at_last_snoc. }
  rewrite (handle_snippet_found filename _ (0 + countedLines pre) before e after
             None 0 ∅ None [] None [] (quoted t) Hh);
    [|now rewrite Hlen, Hd|exact Hb|exact He].
  rewrite Hlen. cbn [orb].
  assert (Hsub : substring (quoted t) 1 (len (quoted t) - 1) = t)
    by apply substring_strip.
  rewrite Hsub, Z.add_0_l. reflexivity.
Qed.

Lemma quoted_block_in_file_witness :
  let header := str "snippet " ++ quoted (str "for") in
  let raw := unlines [[]; str "# loops"; header; str "for x:"; str "endsnippet"; str "tail"] in
  let pre := [[]; str "# loops"] in
  let before := [[]; str "# loops"; header; str "for x:"] in
  (split newline raw = pre ++ header :: [str "for x:"; str "endsnippet"; str "tail"]
   /\ (forall l, In l pre -> plainLine l)
   /\ ~ In space (str "for") /\ ~ In quote (str "for")
   /\ split newline raw = before ++ str "endsnippet" :: [str "tail"]
   /\ (forall l, In l before -> trimEnd l <> str "endsnippet")
   /\ trimEnd (str "endsnippet") = str "endsnippet")
  /\ parseSnippets pythonFile raw =
       mkGenerator []
         (Returned (SnippetResult
            (mkSnippetDefinition 0 (str "for")
               (str "# loopssnippet " ++ quoted (str "for") ++ str "for x")
               [] [] None (str "python.snippets:1") None ∅))).
Proof.
  intros header raw pre before.
  assert (H1 : split newline raw
               = pre ++ header :: [str "for x:"; str "endsnippet"; str "tail"])
    by reflexivity.
  assert (H2 : forall l, In l pre -> plainLine l).
  { intros l [<-|[<-|[]]]; plain_line. }
  assert (H3 : ~ In space (str "for")) by absent_in_literal.
  assert (H4 : ~ In quote (str "for")) by absent_in_literal.
  assert (H5 : split newline raw = before ++ str "endsnippet" :: [str "tail"])
    by reflexivity.
  assert (H6 : forall l, In l before -> trimEnd l <> str "endsnippet").
  { intros l [<-|[<-|[<-|[<-|[]]]]]; intros E; vm_compute in E; discriminate E. }
  assert (H7 : trimEnd (str "endsnippet") = str "endsnippet") by reflexivity.
  split; [tauto|].
  exact (quoted_block_in_file pythonFile raw pre (str "for")
           [str "for x:"; str "endsnippet"; str "tail"] before (str "endsnippet")
           [str "tail"] H1 H2 H3 H4 H5 H6 H7).
Defined.

(** X15.  The first two words of a line are all that the header split
    keeps: the keyword and the word after it; a third word and what follows
    are dropped. *)
Theorem headTail_keeps_two_words :
  forall a b c,
    ~ In space a -> ~ In space b ->
    headTail (a ++ space :: b ++ space :: c) = [a; b].
Proof.
  intros a b c Ha Hb.
  apply (headTail_after_space a (b ++ space :: c) b (split space c) Ha).
  now apply split_app_sep.
Qed.

Lemma headTail_keeps_two_words_witness :
  (~ In space (str "snippet") /\ ~ In space (quoted (str "for")))
  /\ headTail (str "snippet" ++ space :: quoted (str "for") ++ space :: str "b A")
     = [str "snippet"; quoted (str "for")].
Proof.
  assert (H1 : ~ In space (str "snippet")) by absent_in_literal.
  assert (H2 : ~ In space (quoted (str "for"))) by absent_in_literal.
  split; [auto|].
  exact (headTail_keeps_two_words (str "snippet") (quoted (str "for")) (str "b A") H1 H2).
Defined.

(** ** Behaviour of the load *)

(** X16.  The key of a file named [x.snippets] is [x], the name without
    its extension, dots inside [x] included; when [x] is empty or holds a
    line terminator the pattern does not match and the key is the whole
    file name. *)
Theorem groupName_of_snippets_file :
  forall x,
    groupName (x ++ str ".snippets")
    = if bool_decide (x = []) || existsb isLineTerminator x
      then x ++ str ".snippets" else x.
Proof.
  intros x. unfold groupName. rewrite existsb_app_lit.
  destruct (existsb isLineTerminator x); [now rewrite orb_true_r|].
  rewrite orb_false_r. destruct x as [|c x].
  - reflexivity.
  - rewrite bool_decide_eq_false_2 by discriminate.
    now rewrite stem_snippets by discriminate.
Qed.

Section LoadRuns.

Variable snippetDir : jsstring.
Variable pathJoin : jsstring -> jsstring -> jsstring.
Variable readFileSync : jsstring -> jsstring.

(** X17.  Whatever the directory lists and the files contain, a catalogue
    that the callback builds has only empty groups. *)
Theorem catalogue_groups_empty :
  forall files snippets,
    loadCatalogue snippetDir pathJoin readFileSync files = Normal snippets ->
    forall k records, snippets !! k = Some records -> records = [].
Proof.
  intros files snippets H. unfold loadCatalogue in H.
  destruct (loadEntries _ _ _ _) as [entries|e] eqn:E; [|discriminate].
  injection H as <-.
  apply loadEntries_normal in E.
  intros k records Hk. unfold fromEntries in Hk.
  apply fromEntries_lookup in Hk. destruct Hk as [Hin|Hk].
  - rewrite E in Hin. apply in_map_iff in Hin.
    destruct Hin as (f & Hf & _). now injection Hf as _ <-.
  - rewrite lookup_empty in Hk. discriminate Hk.
Qed.

(** X21.  The notice of a call of [loadSnippets] is computed before the
    callback of that call assigns the catalogue.  On a plugin that holds no
    catalogue yet, the count raises and the call leaves the catalogue it has
    built.  On a plugin that holds the catalogue built by an earlier call,
    the notice reads [Loaded 0 snippets], followed by the number of groups
    of that earlier catalogue, whatever the directory lists now. *)
Theorem notice_reports_previous_load :
  forall earlier files previous,
    loadCatalogue snippetDir pathJoin readFileSync earlier = Normal previous ->
    Z.of_nat (size previous) <= maxSafeInteger ->
    notice (loadSnippets snippetDir pathJoin readFileSync None files)
      = Throw TypeError
    /\ snippetsAfter (loadSnippets snippetDir pathJoin readFileSync None earlier)
       = Some previous
    /\ notice (loadSnippets snippetDir pathJoin readFileSync (Some previous) files)
       = Normal (str "UltiSnips: Loaded 0 snippets from "
                   ++ number_to_string (Z.of_nat (size previous)) ++ str " file"
                   ++ (if Z.of_nat (size previous) =? 1 then [] else str "s")).
Proof.
  intros earlier files previous H _.
  split; [reflexivity|]. split.
  - unfold loadSnippets. cbn [snippetsAfter]. now rewrite H.
  - unfold loadSnippets. cbn [notice]. unfold noticeText.
    assert (Hempty : forall k records,
               previous !! k = Some records -> records = []).
    { unfold loadCatalogue in H.
      destruct (loadEntries _ _ _ _) as [entries|e] eqn:E; [|discriminate].
      injection H as <-. apply loadEntries_normal in E.
      intros k records Hk. unfold fromEntries in Hk.
      apply fromEntries_lookup in Hk. destruct Hk as [Hin|Hk].
      - rewrite E in Hin. apply in_map_iff in Hin.
        destruct Hin as (f & Hf & _). now injection Hf as _ <-.
      - rewrite lookup_empty in Hk. discriminate Hk. }
    rewrite (count_of_empty_groups _ Hempty). reflexivity.
Qed.

(** X18.  The load of a directory raises exactly when the parse of one of
    its [.snippets] files raises: one such file is enough to lose the
    groups of all the others. *)
Theorem catalogue_raises_iff :
  forall files,
    loadCatalogue snippetDir pathJoin readFileSync files = Throw TypeError
    <-> exists f,
          In f files /\ endsWithString (str ".snippets") f = true
          /\ loadFile (pathJoin snippetDir f) (readFileSync (pathJoin snippetDir f))
             = Throw TypeError.
Proof.
  intros files. unfold loadCatalogue.
  destruct (loadEntries _ _ _ _) as [entries|[]] eqn:E.
  - split; [discriminate|]. intros (f & Hin & Hs & Hf).
    assert (Ht : loadEntries snippetDir pathJoin readFileSync
                   (List.filter (endsWithString (str ".snippets")) files)
                 = Throw TypeError).
    { apply loadEntries_throw. exists f. split; [|exact Hf].
      apply filter_In. auto. }
    congruence.
  - split; [|reflexivity]. intros _.
    apply loadEntries_throw in E. destruct E as (f & Hin & Hf).
    apply filter_In in Hin. exists f. tauto.
Qed.

(** X19.  The groups of a catalogue are the keys of the files of the
    directory whose name ends in [.snippets]; files with other names give
    no group. *)
Theorem catalogue_keys :
  forall files snippets,
    loadCatalogue snippetDir pathJoin readFileSync files = Normal snippets ->
    (forall k, is_Some (snippets !! k)
               <-> exists f, In f files
                             /\ endsWithString (str ".snippets") f = true
                             /\ groupName f = k).
Proof.
  intros files snippets H k. unfold loadCatalogue in H.
  destruct (loadEntries _ _ _ _) as [entries|e] eqn:E; [|discriminate].
  injection H as <-. apply loadEntries_normal in E.
  unfold fromEntries. rewrite fromEntries_dom, E, List.map_map. cbn [fst].
  rewrite in_map_iff. split.
  - intros [(f & Hf & Hin)|Hs].
    + apply filter_In in Hin. destruct Hin as [Hin Hs].
      exists f. repeat split; assumption.
    + rewrite lookup_empty in Hs. destruct Hs as [x Hx]. discriminate Hx.
  - intros (f & Hin & Hs & Hf). left. exists f. split; [exact Hf|].
    apply filter_In. split; assumption.
Qed.

End LoadRuns.

Lemma catalogue_groups_empty_witness :
  let read := fun _ : jsstring => noDirective in
  let join := fun d f : jsstring => d ++ f in
  let files := [str "python.snippets"; str "notes.txt"; str "c.snippets"] in
  let snippets : gmap (list N) (list SnippetDefinition) :=
    <[ str "c" := [] ]> (<[ str "python" := [] ]> ∅) in
  loadCatalogue (str "dir/") join read files = Normal snippets
  /\ forall k records, snippets !! k = Some records -> records = [].
Proof.
  intros read join files snippets.
  assert (H : loadCatalogue (str "dir/") join read files = Normal snippets)
    by reflexivity.
  split; [exact H|].
  exact (catalogue_groups_empty (str "dir/") join read files snippets H).
Defined.

Lemma notice_reports_previous_load_witness :
  let read := fun _ : jsstring => noDirective in
  let join := fun d f : jsstring => d ++ f in
  let earlier := [str "python.snippets"; str "notes.txt"; str "c.snippets"] in
  let files := [str "python.snippets"] in
  let previous : gmap (list N) (list SnippetDefinition) :=
    <[ str "c" := [] ]> (<[ str "python" := [] ]> ∅) in
  (loadCatalogue (str "dir/") join read earlier = Normal previous
   /\ Z.of_nat (size previous) <= maxSafeInteger)
  /\ notice (loadSnippets (str "dir/") join read None files) = Throw TypeError
  /\ notice (loadSnippets (str "dir/") join read (Some previous) files)
     = Normal (str "UltiSnips: Loaded 0 snippets from 2 files").
Proof.
  intros read join earlier files previous.
  assert (H : loadCatalogue (str "dir/") join read earlier = Normal previous)
    by reflexivity.
  assert (Hs : Z.of_nat (size previous) <= maxSafeInteger)
    by (vm_compute; discriminate).
  split; [auto|].
  destruct (notice_reports_previous_load (str "dir/") join read earlier files
              previous H Hs) as (H1 & _ & H2).
  split; [exact H1|]. rewrite H2. reflexivity.
Defined.

Lemma catalogue_keys_witness :
  let read := fun _ : jsstring => noDirective in
  let join := fun d f : jsstring => d ++ f in
  let files := [str "python.snippets"; str "notes.txt"] in
  let snippets : gmap (list N) (list SnippetDefinition) :=
    <[ str "python" := [] ]> ∅ in
  loadCatalogue (str "dir/") join read files = Normal snippets
  /\ is_Some (snippets !! str "python")
  /\ ~ is_Some (snippets !! str "notes").
Proof.
  intros read join files snippets.
  assert (H : loadCatalogue (str "dir/") join read files = Normal snippets)
    by reflexivity.
  split; [exact H|].
  pose proof (catalogue_keys (str "dir/") join read files snippets H) as K.
  split.
  - apply K. exists (str "python.snippets").
    split; [now left|]. split; reflexivity.
  - intros Hs. apply K in Hs. destruct Hs as (f & Hin & He & Hk).
    destruct Hin as [<-|[<-|[]]].
    + vm_compute in Hk. discriminate Hk.
    + vm_compute in He. discriminate He.
Defined.
